(** * codeparrot preprocessing: a shallow embedding of
      [examples/research_projects/codeparrot/scripts/preprocessing.py]

    The script computes per-record statistics, removes exact duplicates
    through a set of hashes that is consumed destructively, filters by
    fixed heuristics and writes the survivors in shards.

    Conventions of the embedding:
    - a Python [str] is the list of its code points ([list N]);
    - a Python [int] is a [Z]; the set of hashes is a [gset Z];
    - a raised exception is [Raise] of the exception's class name;
    - the float64 results of [np.mean] are [nan] or an exact rational.
      The sums involved are integers; float64 holds them exactly below
      [2^53], and the correctly rounded quotient compares with the
      thresholds of the script as the exact quotient does for every
      content shorter than [2^46] characters;
    - the in-place mutation of [uniques] is explicit state passing. *)

From Stdlib Require Import ZArith QArith List Lia.
From stdpp Require Import gmap strings list.

#[local] Set Warnings "-clear-no-such-hyp".
#[local] Set Default Proof Using "Type".

Module preprocessing.

(** ** Python values *)

Abbreviation str := (list N).

(** The content of a file, byte by byte. *)
Abbreviation bytes := (list N).

(** An ASCII literal as a Python [str]. *)
Definition lit (x : string) : str :=
  map Ascii.N_of_ascii (String.list_ascii_of_string x).

Inductive result (A : Type) : Type :=
| Return (a : A)
| Raise (exc : string).
Arguments Return {A} a.
Arguments Raise {A} exc.

#[global] Instance result_ret : MRet result := @Return.
#[global] Instance result_bind : MBind result := λ A B f m,
  match m with
  | Return a => f a
  | Raise e => Raise e
  end.

Inductive float64 : Type :=
| nan
| fin (q : Q).

(** [x > y] and [x < y] on floats: every comparison with NaN is false. *)
Definition Qlt_bool (a b : Q) : bool := negb (Qle_bool b a).

Definition float_gt (x : float64) (y : Q) : bool :=
  match x with
  | nan => false
  | fin q => Qlt_bool y q
  end.

Definition float_lt (x : float64) (y : Q) : bool :=
  match x with
  | nan => false
  | fin q => Qlt_bool q y
  end.

(** ** Builtins used by the script *)

(** [Py_UNICODE_ISLINEBREAK]: the boundaries [str.splitlines] splits on. *)
Definition is_linebreak (c : N) : bool :=
  bool_decide (c ∈ [10; 11; 12; 13; 28; 29; 30; 133; 8232; 8233]%N).

(** [str.splitlines()]: [cur] is the line being scanned; a line is
    emitted at each boundary ("\r\n" counts as one), and a last line
    without boundary is emitted only when it is not empty. *)
Fixpoint splitlines_from (cur s : str) : list str :=
  match s with
  | [] => match cur with [] => [] | _ => [cur] end
  | c :: rest =>
      if is_linebreak c then
        cur :: match c, rest with
               | 13%N, 10%N :: rest' => splitlines_from [] rest'
               | _, _ => splitlines_from [] rest
               end
      else splitlines_from (cur ++ [c]) rest
  end.

Definition splitlines (s : str) : list str := splitlines_from [] s.

Definition len {A} (l : list A) : Z := Z.of_nat (length l).

Definition sum (l : list Z) : Z := foldr Z.add 0%Z l.

(** [max(iterable)] raises [ValueError] on an empty sequence. *)
Definition max (l : list Z) : result Z :=
  match l with
  | [] => Raise "ValueError"
  | x :: l' => Return (foldl Z.max x l')
  end.

(** [np.mean] of a list of integers (or booleans): NaN, with a warning
    only, on the empty list. *)
Definition np_mean (l : list Z) : float64 :=
  match l with
  | [] => nan
  | _ :: _ => fin (inject_Z (sum l) / inject_Z (len l))
  end.

Definition ascii_isalnum (c : N) : bool :=
  ((48 <=? c) && (c <=? 57) || (65 <=? c) && (c <=? 90)
   || (97 <=? c) && (c <=? 122))%N.

Definition ascii_lower (c : N) : N :=
  if ((65 <=? c) && (c <=? 90))%N then (c + 32)%N else c.

Definition is_ascii (s : str) : bool := forallb (λ c, (c <? 128)%N) s.

Fixpoint startswith (s prefix : str) : bool :=
  match prefix, s with
  | [], _ => true
  | _ :: _, [] => false
  | a :: prefix', b :: s' => (a =? b)%N && startswith s' prefix'
  end.

(** [needle in hay] on strings: substring containment. *)
Fixpoint str_in (needle hay : str) : bool :=
  startswith hay needle
  || match hay with
     | [] => false
     | _ :: hay' => str_in needle hay'
     end.

(** ** The records of the dataset *)

(** The columns [preprocess] adds to a row. *)
Record Attrs : Type := {
  hash : Z;
  line_mean : float64;
  line_max : Z;
  alpha_frac : float64;
  autogenerated : bool
}.

Record Example : Type := {
  content : str;
  attrs : Attrs
}.

Section Script.

(** The interpreter's [hash] on strings, and the Unicode database
    beyond ASCII ([str.isalnum] of a non-ASCII character, [str.lower]
    of a string that is not pure ASCII). *)
Variable builtin_hash : str → Z.
Variable unicode_isalnum : N → bool.
Variable unicode_lower : str → str.

Definition isalnum (c : N) : bool :=
  if (c <? 128)%N then ascii_isalnum c else unicode_isalnum c.

Definition lower (s : str) : str :=
  if is_ascii s then map ascii_lower s else unicode_lower s.

(** ** The functions of the script *)

Definition get_hash (content : str) : Z := builtin_hash content.

(** Returns the dict [{"line_mean": _, "line_max": _}] as a pair; the
    mean is evaluated first and only warns on the empty list, the
    maximum raises. *)
Definition line_stats (content : str) : result (float64 * Z) :=
  let line_lengths := map len (splitlines content) in
  let mean := np_mean line_lengths in
  m ← max line_lengths;
  mret (mean, m).

Definition alpha_stats (content : str) : float64 :=
  np_mean (map (λ c, Z.b2z (isalnum c)) content).

Definition keywords : list str :=
  [lit "auto-generated"; lit "autogenerated"; lit "automatically generated"].

Definition scan_width : nat := 5.

Definition is_autogenerated (content : str) : bool :=
  let lines := splitlines content in
  existsb (λ line, existsb (λ keyword, str_in keyword (lower line)) keywords)
          (take scan_width lines).

Definition preprocess (content : str) : result Attrs :=
  let h := get_hash content in
  '(mean, m) ← line_stats content;
  let a := alpha_stats content in
  let g := is_autogenerated content in
  mret {| hash := h; line_mean := mean; line_max := m;
          alpha_frac := a; autogenerated := g |}.

(** [set.remove(x)] raises [KeyError] when [x] is not a member. *)
Definition set_remove (uniques : gset Z) (x : Z) : result (gset Z) :=
  if bool_decide (x ∈ uniques) then Return (uniques ∖ {[x]})
  else Raise "KeyError".

(** The set is mutated in place: the updated set is returned with the
    result. *)
Definition check_uniques (example : Example) (uniques : gset Z)
  : result (bool * gset Z) :=
  if bool_decide (hash (attrs example) ∈ uniques) then
    uniques' ← set_remove uniques (hash (attrs example));
    mret (true, uniques')
  else mret (false, uniques).

Definition filter (example : Example) (uniques : gset Z)
  : result (bool * gset Z) :=
  '(unique, uniques') ← check_uniques example uniques;
  let verdict :=
    if negb unique then false
    else if autogenerated (attrs example) then false
    else if (line_max (attrs example) >? 1000)%Z then false
    else if float_gt (line_mean (attrs example)) 100 then false
    else if float_lt (alpha_frac (attrs example)) (1 # 4) then false
    else true in
  mret (verdict, uniques').

(** ** The dataset library, as far as the script uses it *)

(** [ds.map(preprocess)]: the new columns are attached to each row, in
    the order of the rows. *)
Definition Dataset_map (contents : list str) : result (list Example) :=
  mapM (λ c, a ← preprocess c; mret {| content := c; attrs := a |}) contents.

(** [ds.filter(f, fn_kwargs={"uniques": uniques})]: [f] is called once
    per row, in the order of the rows, on the one shared set. *)
Fixpoint filter_mask (f : Example → gset Z → result (bool * gset Z))
    (ds : list Example) (uniques : gset Z) : result (list bool * gset Z) :=
  match ds with
  | [] => mret ([], uniques)
  | example :: ds' =>
      '(keep, uniques1) ← f example uniques;
      '(mask, uniques2) ← filter_mask f ds' uniques1;
      mret (keep :: mask, uniques2)
  end.

Fixpoint select_mask {A} (ds : list A) (mask : list bool) : list A :=
  match ds, mask with
  | x :: ds', b :: mask' =>
      if b then x :: select_mask ds' mask' else select_mask ds' mask'
  | _, _ => []
  end.

(** [ds.unique("hash")]: the distinct values, by first occurrence. *)
Definition Dataset_unique_hash (ds : list Example) : list Z :=
  remove_dups (map (λ e, hash (attrs e)) ds).

(** [ds.remove_columns(["content"])]. *)
Definition remove_content (ds : list Example) : list Attrs := map attrs ds.

(** [ds.select(indices)]: the rows at the indices, in their order. *)
Definition Dataset_select {A} (ds : list A) (indices : list Z)
  : result (list A) :=
  mapM (λ i, if ((0 <=? i) && (i <? len ds))%Z then
               match ds !! Z.to_nat i with
               | Some x => Return x
               | None => Raise "IndexError"
               end
             else Raise "IndexError") indices.

(** [len(range(start, stop, step))]. *)
Definition range_len (start stop step : Z) : Z :=
  if (0 <? step)%Z then
    if (start <? stop)%Z then ((stop - start - 1) / step + 1)%Z else 0%Z
  else
    if (stop <? start)%Z then ((start - stop - 1) / (- step) + 1)%Z else 0%Z.

(** [list(range(start, stop, step))]; a zero step is a [ValueError]. *)
Definition range (start stop step : Z) : result (list Z) :=
  if (step =? 0)%Z then Raise "ValueError"
  else Return (map (λ k, (start + Z.of_nat k * step)%Z)
                   (seq 0 (Z.to_nat (range_len start stop step)))).

Definition enumerate {A} (l : list A) : list (Z * A) :=
  zip (map Z.of_nat (seq 0 (length l))) l.

(** ** The script *)

Record Run : Type := {
  ds : list Example;          (* the dataset after [ds.map(preprocess)] *)
  data_hash : list Attrs;     (* the rows written to data_hash.json *)
  uniques0 : gset Z;          (* [set(ds.unique("hash"))] *)
  mask : list bool;           (* what [filter] returned, row by row *)
  uniques1 : gset Z;          (* the set after the filter pass *)
  ds_filter : list Example
}.

(** [ds.unique("hash")] in the script: [ds.map] adds no column to a
    dataset without rows, and asking for a column that is not there
    raises [ValueError]. *)
Definition Dataset_unique (ds : list Example) : result (list Z) :=
  match ds with
  | [] => Raise "ValueError"
  | _ :: _ => Return (Dataset_unique_hash ds)
  end.

(** Lines 97 to 116: preprocess, export the hashes, build the set of
    hashes, filter. *)
Definition pipeline (contents : list str) : result Run :=
  ds ← Dataset_map contents;
  let data_hash := remove_content ds in
  values ← Dataset_unique ds;
  let uniques := list_to_set values : gset Z in
  _ ← (if (len ds =? 0)%Z then Raise "ZeroDivisionError" else Return tt);
  '(mask, uniques') ← filter_mask filter ds uniques;
  mret {| ds := ds; data_hash := data_hash; uniques0 := uniques;
          mask := mask; uniques1 := uniques';
          ds_filter := select_mask ds mask |}.

(** Lines 122 to 126: the rows handed to [to_json] for each file, with
    the number [file_number + 1] that names the file. *)
Definition shards {A} (ds_filter : list A) (samples_per_file : Z)
  : result (list (Z * list A)) :=
  starts ← range 0 (len ds_filter) samples_per_file;
  mapM (λ '(file_number, index),
          let end_index := Z.min (len ds_filter) (index + samples_per_file) in
          indices ← range index end_index 1;
          rows ← Dataset_select ds_filter indices;
          mret ((file_number + 1)%Z, rows))
       (enumerate starts).

(** The contract of the filter in the words of its description: the
    checks, each answering whether the record passes, are evaluated in
    this order and the first failure decides. *)
Definition checks : list (Example → gset Z → result (bool * gset Z)) :=
  [ check_uniques;
    (λ example uniques, mret (negb (autogenerated (attrs example)), uniques));
    (λ example uniques,
       mret (negb (line_max (attrs example) >? 1000)%Z, uniques));
    (λ example uniques,
       mret (negb (float_gt (line_mean (attrs example)) 100), uniques));
    (λ example uniques,
       mret (negb (float_lt (alpha_frac (attrs example)) (1 # 4)), uniques)) ].

Fixpoint accept_in_order (cs : list (Example → gset Z → result (bool * gset Z)))
    (example : Example) (uniques : gset Z) : result (bool * gset Z) :=
  match cs with
  | [] => mret (true, uniques)
  | c :: cs' =>
      match c example uniques with
      | Return (true, uniques') => accept_in_order cs' example uniques'
      | Return (false, uniques') => mret (false, uniques')
      | Raise e => Raise e
      end
  end.

(** What the four tests of [filter] after the duplicate check ask of a
    row, as a property: a comparison with NaN rejects nothing. *)
Definition passes_heuristics (a : Attrs) : Prop :=
  autogenerated a = false
  ∧ (line_max a ≤ 1000)%Z
  ∧ match line_mean a with nan => True | fin q => (q <= 100)%Q end
  ∧ match alpha_frac a with nan => True | fin q => (1 # 4 <= q)%Q end.

(** ** Writing a shard: the files and what can fail *)

(** The one operation of a call, if any, at which the operating system
    reports an error; a failing copy leaves in the target whatever had
    reached the disk, [partial]. *)
Inductive fault : Type :=
| no_fault
| fail_open
| fail_gzip_open
| fail_copy (partial : bytes)
| fail_unlink.

(** An operation on the files: the files after it, and its result. An
    exception keeps the changes made before it. *)
Definition IO (A : Type) : Type := gmap str bytes → gmap str bytes * result A.

Definition io_ret {A} (a : A) : IO A := λ files, (files, Return a).

Definition io_bind {A B} (m : IO A) (k : A → IO B) : IO B := λ files,
  match m files with
  | (files', Return a) => k a files'
  | (files', Raise e) => (files', Raise e)
  end.

Notation "x ⇐ m ;; k" := (io_bind m (λ x, k))
  (at level 100, m at next level, right associativity).

(** gzip at [compresslevel=6]. *)
Variable gzip_compress : bytes → bytes.

(** [open(file_path, "rb")], read in full by the copy. *)
Definition open_rb (io : fault) (file_path : str) : IO bytes := λ files,
  match files !! file_path with
  | None => (files, Raise "FileNotFoundError")
  | Some data =>
      match io with
      | fail_open => (files, Raise "OSError")
      | _ => (files, Return data)
      end
  end.

(** [gzip.open(path, "wb")] creates the file or truncates it. *)
Definition gzip_open_wb (io : fault) (path : str) : IO unit := λ files,
  match io with
  | fail_gzip_open => (files, Raise "OSError")
  | _ => (<[path := []]> files, Return tt)
  end.

(** [shutil.copyfileobj(f_in, f_out)] and the closing of both files. *)
Definition copyfileobj (io : fault) (data : bytes) (path : str) : IO unit :=
  λ files,
  match io with
  | fail_copy partial => (<[path := partial]> files, Raise "OSError")
  | _ => (<[path := gzip_compress data]> files, Return tt)
  end.

Definition os_unlink (io : fault) (path : str) : IO unit := λ files,
  match files !! path with
  | None => (files, Raise "FileNotFoundError")
  | Some _ =>
      match io with
      | fail_unlink => (files, Raise "OSError")
      | _ => (delete path files, Return tt)
      end
  end.

Definition compress_file (io : fault) (file_path : str) : IO unit :=
  f_in ⇐ open_rb io file_path ;;
  _ ⇐ gzip_open_wb io (file_path ++ lit ".gz") ;;
  _ ⇐ copyfileobj io f_in (file_path ++ lit ".gz") ;;
  os_unlink io file_path.

(** ** Naming and saving the shards *)

(** The decimal digits of a natural number, most significant first;
    [fuel] bounds the number of digits. *)
Fixpoint digits_from (fuel : nat) (n : N) (acc : str) : str :=
  match fuel with
  | O => acc
  | S fuel' =>
      let acc' := (48 + n mod 10)%N :: acc in
      if (n / 10 =? 0)%N then acc' else digits_from fuel' (n / 10) acc'
  end.

Definition digits (n : N) : str :=
  digits_from (S (N.to_nat (N.log2 n))) n [].

(** [f"{n:012}"]: the digits padded with zeros to twelve characters,
    the sign of a negative number before the zeros. *)
Definition format_012 (n : Z) : str :=
  let sign := if (n <? 0)%Z then [45%N] else [] in
  let d := digits (Z.abs_N n) in
  sign ++ replicate (12 - length sign - length d) 48%N ++ d.

(** [int(s)] on a string of decimal digits: reads a number back. *)
Definition int_of_digits (s : str) : N :=
  foldl (λ acc c, (acc * 10 + (c - 48))%N) 0%N s.

Definition output_dir : str := lit "codeparrot-clean".

Definition samples_per_file : Z := 100000.

(** [f"{output_dir}/file-{file_number+1:012}.json"]. *)
Definition file_path_of (file_number : Z) : str :=
  output_dir ++ lit "/file-" ++ format_012 (file_number + 1) ++ lit ".json".

(** [rows.to_json(file_path)] creates the file or replaces it with
    the JSON lines of the rows, [json_lines rows], the serialization of
    the dataset library; the write itself is taken to succeed. *)
Definition Dataset_to_json (json_lines : list Example → bytes)
    (rows : list Example) (file_path : str) : IO unit :=
  λ files, (<[file_path := json_lines rows]> files, Return tt).

(** An exception of a computation that touches no file. *)
Definition io_lift {A} (r : result A) : IO A := λ files, (files, r).

(** The body of the loop of lines 122 to 126 over the pairs that
    [enumerate] yields; [io file_number] is what fails, if anything,
    in the call of [compress_file] of that round. *)
Fixpoint save_loop (json_lines : list Example → bytes) (io : Z → fault)
    (ds_filter : list Example) (samples_per_file : Z)
    (rounds : list (Z * Z)) : IO unit :=
  match rounds with
  | [] => io_ret tt
  | (file_number, index) :: rounds' =>
      let file_path := file_path_of file_number in
      let end_index := Z.min (len ds_filter) (index + samples_per_file) in
      indices ⇐ io_lift (range index end_index 1) ;;
      rows ⇐ io_lift (Dataset_select ds_filter indices) ;;
      _ ⇐ Dataset_to_json json_lines rows file_path ;;
      _ ⇐ compress_file (io file_number) file_path ;;
      save_loop json_lines io ds_filter samples_per_file rounds'
  end.

Definition save (json_lines : list Example → bytes) (io : Z → fault)
    (ds_filter : list Example) (samples_per_file : Z) : IO unit :=
  starts ⇐ io_lift (range 0 (len ds_filter) samples_per_file) ;;
  save_loop json_lines io ds_filter samples_per_file (enumerate starts).

(** ** Lines and statistics *)

Lemma splitlines_from_not_nil (s cur : str) :
  cur ≠ [] ∨ s ≠ [] → splitlines_from cur s ≠ [].
Proof.
  revert cur. induction s as [|c rest IH]; intros cur Hne; simpl.
  - destruct Hne as [Hcur|Hs]; [|done]. by destruct cur.
  - destruct (is_linebreak c); [done|].
    apply IH. left. by destruct cur.
Qed.

Lemma splitlines_nil_iff (s : str) : splitlines s = [] ↔ s = [].
Proof.
  split; [|by intros ->].
  intros Hs. destruct s as [|c rest]; [done|].
  exfalso. revert Hs. apply splitlines_from_not_nil. by right.
Qed.

Lemma foldl_max_ge (l : list Z) (x : Z) :
  (x ≤ foldl Z.max x l)%Z ∧ Forall (λ y, (y ≤ foldl Z.max x l)%Z) l.
Proof.
  revert x. induction l as [|y l IH]; intros x; simpl.
  - split; [lia|constructor].
  - destruct (IH (Z.max x y)) as [Hx Hl]. split; [lia|].
    constructor; [lia|done].
Qed.

Lemma sum_le_bound (l : list Z) (M : Z) :
  Forall (λ y, (y ≤ M)%Z) l → (sum l ≤ len l * M)%Z.
Proof.
  unfold len, sum. induction 1 as [|y l Hy _ IH]; cbn [foldr length]; [lia|].
  rewrite Nat2Z.inj_succ. lia.
Qed.

Lemma sum_ge_bound (l : list Z) (m : Z) :
  Forall (λ y, (m ≤ y)%Z) l → (len l * m ≤ sum l)%Z.
Proof.
  unfold len, sum. induction 1 as [|y l Hy _ IH]; cbn [foldr length]; [lia|].
  rewrite Nat2Z.inj_succ. lia.
Qed.

Lemma quotient_le (s n M : Z) :
  (0 < n)%Z → (s ≤ n * M)%Z → (inject_Z s / inject_Z n <= inject_Z M)%Q.
Proof.
  intros Hn Hs. apply Qle_shift_div_r.
  - change 0%Q with (inject_Z 0). by rewrite <- Zlt_Qlt.
  - rewrite <- inject_Z_mult, <- Zle_Qle. lia.
Qed.

Lemma quotient_ge (s n m : Z) :
  (0 < n)%Z → (n * m ≤ s)%Z → (inject_Z m <= inject_Z s / inject_Z n)%Q.
Proof.
  intros Hn Hs. apply Qle_shift_div_l.
  - change 0%Q with (inject_Z 0). by rewrite <- Zlt_Qlt.
  - rewrite <- inject_Z_mult, <- Zle_Qle. lia.
Qed.

Lemma len_cons_pos {A} (x : A) (l : list A) : (0 < len (x :: l))%Z.
Proof. unfold len. simpl. lia. Qed.

(** C4, as the code has it: for a content that yields no line, which is
    the empty string and no other, [line_stats] raises the [ValueError]
    of [max] on an empty sequence. *)
Theorem line_stats_no_line_ValueError (content : str) :
  splitlines content = [] →
  content = [] ∧ line_stats content = Raise "ValueError".
Proof.
  intros Hs. split; [by apply splitlines_nil_iff|].
  unfold line_stats. by rewrite Hs.
Qed.

(** C8: for a content that is not empty, [line_stats] returns, and the
    mean of the line lengths is at most their maximum. *)
Theorem line_mean_le_line_max (content : str) :
  content ≠ [] →
  ∃ mean m, line_stats content = Return (fin mean, m)
            ∧ (mean <= inject_Z m)%Q.
Proof.
  intros Hne. unfold line_stats.
  destruct (splitlines content) as [|l ls] eqn:Hs.
  { by apply splitlines_nil_iff in Hs. }
  simpl. eexists _, _. split; [reflexivity|].
  destruct (foldl_max_ge (map len ls) (len l)) as [Hx Hl].
  apply quotient_le; [apply (len_cons_pos (len l))|].
  apply (sum_le_bound (len l :: map len ls)). by constructor.
Qed.

(** C5, as the code has it: for every content that is not empty
    [alpha_frac] is a number between 0 and 1; for the empty string it
    is NaN. *)
Theorem alpha_frac_bounds (content : str) :
  (content ≠ [] →
   ∃ q, alpha_stats content = fin q ∧ (0 <= q)%Q ∧ (q <= 1)%Q)
  ∧ alpha_stats [] = nan.
Proof.
  split; [|done]. intros Hne.
  destruct content as [|c rest]; [done|].
  unfold alpha_stats.
  set (flags := map (λ c, Z.b2z (isalnum c)) (c :: rest)).
  assert (Hflags : Forall (λ y, (0 ≤ y)%Z ∧ (y ≤ 1)%Z) flags).
  { apply Forall_forall. intros y Hy. apply list_elem_of_fmap in Hy as (x & -> & _).
    destruct (isalnum x); simpl; lia. }
  assert (Hpos : (0 < len flags)%Z) by apply len_cons_pos.
  exists (inject_Z (sum flags) / inject_Z (len flags))%Q.
  split; [done|]. split.
  - change 0%Q with (inject_Z 0). apply quotient_ge; [done|].
    apply sum_ge_bound. eapply Forall_impl; [exact Hflags|]. simpl. lia.
  - change 1%Q with (inject_Z 1). apply quotient_le; [done|].
    apply sum_le_bound. eapply Forall_impl; [exact Hflags|]. simpl. lia.
Qed.

(** ** The set of hashes *)

Lemma check_uniques_in (example : Example) (uniques : gset Z) :
  hash (attrs example) ∈ uniques →
  check_uniques example uniques
  = Return (true, uniques ∖ {[hash (attrs example)]}).
Proof.
  intros Hin. unfold check_uniques, set_remove.
  by rewrite !bool_decide_eq_true_2.
Qed.

Lemma check_uniques_not_in (example : Example) (uniques : gset Z) :
  hash (attrs example) ∉ uniques →
  check_uniques example uniques = Return (false, uniques).
Proof.
  intros Hin. unfold check_uniques. by rewrite bool_decide_eq_false_2.
Qed.

Lemma check_uniques_eq (example : Example) (uniques : gset Z) :
  check_uniques example uniques
  = Return (bool_decide (hash (attrs example) ∈ uniques),
            uniques ∖ {[hash (attrs example)]}).
Proof.
  destruct (decide (hash (attrs example) ∈ uniques)) as [Hin|Hin].
  - by rewrite check_uniques_in, bool_decide_eq_true_2.
  - rewrite check_uniques_not_in, bool_decide_eq_false_2 by done.
    do 2 f_equal. set_solver.
Qed.

(** The heuristics of [filter] that follow the duplicate check. *)
Lemma filter_eq (example : Example) (uniques : gset Z) :
  filter example uniques
  = Return (bool_decide (hash (attrs example) ∈ uniques)
            && negb (autogenerated (attrs example))
            && negb (line_max (attrs example) >? 1000)%Z
            && negb (float_gt (line_mean (attrs example)) 100)
            && negb (float_lt (alpha_frac (attrs example)) (1 # 4)),
            uniques ∖ {[hash (attrs example)]}).
Proof.
  unfold filter. rewrite check_uniques_eq. simpl.
  destruct (bool_decide _), (autogenerated _), (_ >? _)%Z,
    (float_gt _ _), (float_lt _ _); reflexivity.
Qed.

(** A pass of a function that, like [check_uniques] and [filter],
    retires the hash of each row it sees and accepts a row only when
    its hash was still in the set. *)
Lemma filter_mask_pass (f : Example → gset Z → result (bool * gset Z)) :
  (∀ e u, ∃ b, f e u = Return (b, u ∖ {[hash (attrs e)]})
               ∧ (b = true → hash (attrs e) ∈ u)) →
  ∀ (ds : list Example) (uniques : gset Z),
  ∃ mask,
    filter_mask f ds uniques
    = Return (mask, uniques ∖ list_to_set (map (λ e, hash (attrs e)) ds))
    ∧ length mask = length ds
    ∧ ∀ j ej, ds !! j = Some ej → mask !! j = Some true →
        hash (attrs ej) ∈ uniques
        ∧ ∀ i ei, i < j → ds !! i = Some ei →
            hash (attrs ei) ≠ hash (attrs ej).
Proof.
  intros Hf ds. induction ds as [|e ds IH]; intros u.
  - exists []. simpl. split; [|done]. do 2 f_equal. set_solver.
  - destruct (Hf e u) as (b & Hfe & Hb).
    destruct (IH (u ∖ {[hash (attrs e)]})) as (mask & Hrun & Hlen & Hacc).
    exists (b :: mask). simpl. rewrite Hfe. simpl. rewrite Hrun. simpl.
    split; [do 2 f_equal; set_solver|].
    split; [by rewrite Hlen|].
    intros [|j] ej Hj Hm; simpl in *.
    + injection Hj as <-. injection Hm as ->. split; [by apply Hb|].
      intros i ei Hi. lia.
    + destruct (Hacc j ej Hj Hm) as [Hin Hearlier].
      split; [set_solver|].
      intros [|i] ei Hi Hei; simpl in *.
      * injection Hei as <-. set_solver.
      * apply Hearlier with i; [lia|done].
Qed.

Lemma check_uniques_retires (e : Example) (u : gset Z) :
  ∃ b, check_uniques e u = Return (b, u ∖ {[hash (attrs e)]})
       ∧ (b = true → hash (attrs e) ∈ u).
Proof.
  eexists. split; [apply check_uniques_eq|].
  intros Hb. by apply bool_decide_eq_true in Hb.
Qed.

Lemma filter_retires (e : Example) (u : gset Z) :
  ∃ b, filter e u = Return (b, u ∖ {[hash (attrs e)]})
       ∧ (b = true → hash (attrs e) ∈ u).
Proof.
  eexists. split; [apply filter_eq|].
  intros Hb. rewrite !andb_true_iff in Hb.
  destruct Hb as [[[[Hb _] _] _] _]. by apply bool_decide_eq_true in Hb.
Qed.

(** A run of [check_uniques] over rows that all carry a hash that is
    no longer in the set answers false every time. *)
Lemma check_uniques_all_false (h : Z) (es : list Example) (u : gset Z) :
  h ∉ u → Forall (λ e, hash (attrs e) = h) es →
  filter_mask check_uniques es u = Return (replicate (length es) false, u).
Proof.
  intros Hh Hes. induction Hes as [|e es He _ IH]; [done|].
  simpl. rewrite check_uniques_not_in by by rewrite He.
  simpl. by rewrite IH.
Qed.

Lemma count_occ_replicate_false (n : nat) :
  count_occ Bool.bool_dec (replicate n false) true = 0.
Proof. induction n as [|n IH]; [done|]. simpl. exact IH. Qed.

(** C2: for a hash [h] in the set, the first [check_uniques] on [h]
    answers true and removes [h]; after it, whatever other calls come
    in between, a call on [h] answers false and leaves the set as it
    is; so over any number (at least one) of records with one content,
    hence one hash, visited in any order, exactly one call answers
    true. *)
Theorem check_uniques_consumes_once (uniques : gset Z) (h : Z) :
  h ∈ uniques →
  (∀ e, hash (attrs e) = h →
        check_uniques e uniques = Return (true, uniques ∖ {[h]}))
  ∧ (∀ es e' mask uniques',
        hash (attrs e') = h →
        filter_mask check_uniques es (uniques ∖ {[h]})
        = Return (mask, uniques') →
        check_uniques e' uniques' = Return (false, uniques'))
  ∧ (∀ c es es',
        get_hash c = h → es ≠ [] →
        Forall (λ e, content e = c
                     ∧ hash (attrs e) = get_hash (content e)) es →
        es' ≡ₚ es →
        ∃ mask uniques',
          filter_mask check_uniques es' uniques = Return (mask, uniques')
          ∧ count_occ Bool.bool_dec mask true = 1).
Proof.
  clear unicode_lower gzip_compress.
  intros Hin. split; [|split].
  - intros e <-. by apply check_uniques_in.
  - intros es e' mask uniques' He' Hrun.
    destruct (filter_mask_pass check_uniques check_uniques_retires
                es (uniques ∖ {[h]})) as (mask' & Hrun' & _).
    rewrite Hrun' in Hrun. injection Hrun as _ <-.
    apply check_uniques_not_in. rewrite He'. set_solver.
  - intros c es es' Hc Hne Hes Hperm.
    assert (Hes' : Forall (λ e, hash (attrs e) = h) es').
    { rewrite Hperm. eapply Forall_impl; [exact Hes|].
      simpl. intros e [Hce ->]. by rewrite Hce. }
    destruct es' as [|e rest].
    { apply Permutation_nil_l in Hperm. by subst es. }
    apply Forall_cons in Hes' as [He Hrest].
    exists (true :: replicate (length rest) false), (uniques ∖ {[h]}).
    simpl. rewrite check_uniques_in by by rewrite He. simpl.
    rewrite He, (check_uniques_all_false h) by (done || set_solver).
    simpl. split; [done|]. by rewrite count_occ_replicate_false.
Qed.

(** C3: [filter] decides as the checks taken in the order duplicate,
    autogenerated, [line_max > 1000], [line_mean > 100],
    [alpha_frac < 0.25] with the first failure deciding, and whatever
    it answers, the set after the call is the set before it without
    the hash of the record. *)
Theorem filter_order_and_effect (example : Example) (uniques : gset Z) :
  filter example uniques = accept_in_order checks example uniques
  ∧ ∃ verdict,
      filter example uniques
      = Return (verdict, uniques ∖ {[hash (attrs example)]})
      ∧ verdict
        = bool_decide (hash (attrs example) ∈ uniques)
          && negb (autogenerated (attrs example))
          && negb (line_max (attrs example) >? 1000)%Z
          && negb (float_gt (line_mean (attrs example)) 100)
          && negb (float_lt (alpha_frac (attrs example)) (1 # 4)).
Proof.
  split; [|eexists; split; [apply filter_eq|reflexivity]].
  rewrite filter_eq. unfold accept_in_order, checks.
  rewrite check_uniques_eq. simpl.
  destruct (bool_decide _), (autogenerated _), (_ >? _)%Z,
    (float_gt _ _), (float_lt _ _); reflexivity.
Qed.

(** C10: in a filter pass, a record that comes after a record with the
    same hash is rejected, whatever its content and whatever was
    decided for the earlier one; so of the records that share a hash
    only the first processed can be accepted, and none is when that
    one is rejected. *)
Theorem same_hash_first_wins (ds : list Example) (uniques : gset Z) :
  ∃ mask uniques',
    filter_mask filter ds uniques = Return (mask, uniques')
    ∧ length mask = length ds
    ∧ (∀ i j ei ej,
         i < j → ds !! i = Some ei → ds !! j = Some ej →
         hash (attrs ei) = hash (attrs ej) →
         mask !! j = Some false)
    ∧ (∀ i ei,
         ds !! i = Some ei → mask !! i = Some false →
         (∀ k ek, k < i → ds !! k = Some ek →
                  hash (attrs ek) ≠ hash (attrs ei)) →
         ∀ j ej, ds !! j = Some ej →
                 hash (attrs ej) = hash (attrs ei) →
                 mask !! j = Some false).
Proof.
  destruct (filter_mask_pass filter filter_retires ds uniques)
    as (mask & Hrun & Hlen & Hacc).
  exists mask, (uniques ∖ list_to_set (map (λ e, hash (attrs e)) ds)).
  split; [done|]. split; [done|].
  assert (Hlater : ∀ i j ei ej,
    i < j → ds !! i = Some ei → ds !! j = Some ej →
    hash (attrs ei) = hash (attrs ej) → mask !! j = Some false).
  { intros i j ei ej Hij Hi Hj Hh.
    destruct (lookup_lt_is_Some_2 mask j) as [b Hb].
    { rewrite Hlen. by eapply lookup_lt_Some. }
    destruct b; [|done].
    destruct (Hacc j ej Hj Hb) as [_ Hearlier].
    by destruct (Hearlier i ei Hij Hi). }
  split; [exact Hlater|].
  intros i ei Hi Hmi Hfirst j ej Hj Hh.
  destruct (Nat.lt_trichotomy i j) as [Hlt|[->|Hgt]].
  - by apply (Hlater i j ei ej).
  - done.
  - by destruct (Hfirst j ej Hgt Hj).
Qed.

(** ** The scenario of three records *)

Lemma preprocess_a_b :
  preprocess (lit "a" ++ [10%N] ++ lit "b")
  = Return {| hash := builtin_hash (lit "a" ++ [10%N] ++ lit "b");
              line_mean := np_mean [1; 1]%Z; line_max := 1;
              alpha_frac := np_mean [1; 0; 1]%Z;
              autogenerated := false |}.
Proof. reflexivity. Qed.

Lemma preprocess_auto_generated :
  preprocess (lit "AUTO-GENERATED FILE" ++ [10%N] ++ lit "x")
  = Return {| hash := builtin_hash
                        (lit "AUTO-GENERATED FILE" ++ [10%N] ++ lit "x");
              line_mean := np_mean [19; 1]%Z; line_max := 19;
              alpha_frac :=
                np_mean [1;1;1;1;0;1;1;1;1;1;1;1;1;1;0;1;1;1;1;0;1]%Z;
              autogenerated := true |}.
Proof. reflexivity. Qed.

Lemma filter_mask_filter_cons (e : Example) (ds : list Example)
    (uniques : gset Z) :
  filter_mask filter (e :: ds) uniques
  = match filter_mask filter ds (uniques ∖ {[hash (attrs e)]}) with
    | Return (mask, uniques') =>
        Return ((bool_decide (hash (attrs e) ∈ uniques)
                 && negb (autogenerated (attrs e))
                 && negb (line_max (attrs e) >? 1000)%Z
                 && negb (float_gt (line_mean (attrs e)) 100)
                 && negb (float_lt (alpha_frac (attrs e)) (1 # 4)))
                :: mask, uniques')
    | Raise exc => Raise exc
    end.
Proof.
  cbn [filter_mask]. rewrite filter_eq. cbn [mbind result_bind].
  by destruct (filter_mask filter ds _) as [[mask u]|exc].
Qed.

(** C1: on the three contents "a\nb", "a\nb" and
    "AUTO-GENERATED FILE\nx" the script runs to the end of the filter
    pass; [filter] answers true, false, false; [is_autogenerated] is
    true of the third; the export written before the filter holds the
    three hashes; the first record alone is kept. *)
Theorem pipeline_three_records :
  let ab := lit "a" ++ [10%N] ++ lit "b" in
  let gen := lit "AUTO-GENERATED FILE" ++ [10%N] ++ lit "x" in
  ∃ run,
    pipeline [ab; ab; gen] = Return run
    ∧ mask run = [true; false; false]
    ∧ is_autogenerated gen = true
    ∧ map hash (data_hash run)
      = [builtin_hash ab; builtin_hash ab; builtin_hash gen]
    ∧ map content (ds run) = [ab; ab; gen]
    ∧ map content (ds_filter run) = [ab].
Proof.
  clear gzip_compress.
  intros ab gen.
  pose (e1 := {| content := ab;
                 attrs := {| hash := builtin_hash ab;
                             line_mean := np_mean [1; 1]%Z; line_max := 1;
                             alpha_frac := np_mean [1; 0; 1]%Z;
                             autogenerated := false |} |}).
  pose (e3 := {| content := gen;
                 attrs := {| hash := builtin_hash gen;
                             line_mean := np_mean [19; 1]%Z; line_max := 19;
                             alpha_frac :=
                               np_mean [1;1;1;1;0;1;1;1;1;1;1;1;1;1;0;
                                        1;1;1;1;0;1]%Z;
                             autogenerated := true |} |}).
  assert (Hmap : Dataset_map [ab; ab; gen] = Return [e1; e1; e3]).
  { unfold Dataset_map. cbn [mapM].
    rewrite (preprocess_a_b : preprocess ab = _).
    by rewrite (preprocess_auto_generated : preprocess gen = _). }
  set (U := list_to_set (Dataset_unique_hash [e1; e1; e3]) : gset Z).
  assert (Hin : builtin_hash ab ∈ U).
  { unfold U, Dataset_unique_hash. rewrite elem_of_list_to_set.
    apply elem_of_remove_dups. simpl. set_solver. }
  assert (Hmask : ∃ uniques',
    filter_mask filter [e1; e1; e3] U = Return ([true; false; false], uniques')).
  { rewrite !filter_mask_filter_cons. cbn [filter_mask mret result_ret].
    cbn [e1 e3 attrs hash autogenerated negb].
    rewrite (bool_decide_eq_true_2 _ Hin).
    rewrite (bool_decide_eq_false_2 (builtin_hash ab ∈ U ∖ _)) by set_solver.
    rewrite andb_false_r. eexists. reflexivity. }
  destruct Hmask as [uniques' Hmask].
  eexists. unfold pipeline. rewrite Hmap.
  cbn [mbind result_bind Dataset_unique]. fold U. rewrite Hmask.
  change (len [e1; e1; e3] =? 0)%Z with false. cbn [mbind result_bind].
  split; [reflexivity|]. repeat split.
Qed.

(** ** The shards *)

Lemma mapM_map_Return {A B C} (f : B → result C) (h : A → B) (g : A → C)
    (l : list A) :
  Forall (λ x, f (h x) = Return (g x)) l →
  mapM f (map h l) = Return (map g l).
Proof.
  induction 1 as [|x l Hx _ IH]; [done|].
  cbn [map mapM]. rewrite Hx. cbn [mbind result_bind]. by rewrite IH.
Qed.

Lemma zip_map_map {A B C} (f : A → B) (g : A → C) (l : list A) :
  zip (map f l) (map g l) = map (λ x, (f x, g x)) l.
Proof. induction l as [|x l IH]; [done|]. simpl. by rewrite IH. Qed.

Lemma map_offset_seq (a b c : nat) :
  map (λ k, (Z.of_nat a + Z.of_nat k * 1)%Z) (seq b c)
  = map Z.of_nat (seq (a + b) c).
Proof.
  revert b. induction c as [|c IH]; intros b; [done|].
  cbn [seq map]. rewrite IH, Nat.add_succ_r. f_equal. lia.
Qed.

(** [range(index, end_index)] counts up from [index]. *)
Lemma range_step_1 (a c : nat) :
  range (Z.of_nat a) (Z.of_nat (a + c)) 1 = Return (map Z.of_nat (seq a c)).
Proof.
  unfold range, range_len.
  change (1 =? 0)%Z with false. change (0 <? 1)%Z with true. cbv iota.
  f_equal.
  destruct (Z.ltb_spec (Z.of_nat a) (Z.of_nat (a + c))) as [Hlt|Hge].
  - rewrite Z.div_1_r.
    replace (Z.to_nat (Z.of_nat (a + c) - Z.of_nat a - 1 + 1)) with c by lia.
    by rewrite map_offset_seq, Nat.add_0_r.
  - assert (c = 0) as -> by lia. done.
Qed.

(** The rows at consecutive indices are a slice of the dataset. *)
Lemma Dataset_select_seq {A} (ds : list A) (c a : nat) :
  a + c ≤ length ds →
  Dataset_select ds (map Z.of_nat (seq a c)) = Return (take c (drop a ds)).
Proof.
  unfold Dataset_select, len. revert a.
  induction c as [|c IH]; intros a Hle; [done|].
  destruct (lookup_lt_is_Some_2 ds a) as [x Hx]; [lia|].
  cbn [seq map mapM].
  rewrite (proj2 (Z.leb_le _ _)) by lia.
  rewrite (proj2 (Z.ltb_lt _ _)) by lia.
  cbn [andb]. rewrite Nat2Z.id, Hx. cbn [mbind result_bind].
  rewrite (IH (S a)) by lia. cbn [mbind result_bind mret result_ret].
  by rewrite (drop_S ds x a Hx).
Qed.

(** The number of shards: [ceil(n / samples_per_file)]. *)
Lemma range_len_shards (n s : nat) :
  0 < s →
  Z.to_nat (range_len 0 (Z.of_nat n) (Z.of_nat s))
  = if decide (n = 0) then 0 else S ((n - 1) / s).
Proof.
  intros Hs. unfold range_len.
  rewrite (proj2 (Z.ltb_lt 0 (Z.of_nat s))) by lia.
  destruct (decide (n = 0)) as [->|Hn]; [done|].
  rewrite (proj2 (Z.ltb_lt 0 (Z.of_nat n))) by lia.
  replace (Z.of_nat n - 0 - 1)%Z with (Z.of_nat (n - 1)) by lia.
  rewrite <- Nat2Z.inj_div. lia.
Qed.

(** [range(0, n, samples_per_file)]: the first index of each shard. *)
Lemma range_starts (n s : nat) :
  0 < s →
  range 0 (Z.of_nat n) (Z.of_nat s)
  = Return (map (λ k, Z.of_nat (k * s))
                (seq 0 (if decide (n = 0) then 0 else S ((n - 1) / s)))).
Proof.
  intros Hs. unfold range.
  rewrite (proj2 (Z.eqb_neq _ 0)) by lia.
  rewrite range_len_shards by done. f_equal.
  apply map_ext. intros k. lia.
Qed.

(** What the loop hands to [to_json]: slice number [k], counted from 0,
    is named [k + 1] and holds the rows from [k * samples_per_file]. *)
Lemma shards_eq {A} (ds_filter : list A) (s : nat) :
  0 < s →
  shards ds_filter (Z.of_nat s)
  = Return (map (λ k, (Z.of_nat k + 1, take s (drop (k * s) ds_filter))%Z)
                (seq 0 (if decide (length ds_filter = 0) then 0
                        else S ((length ds_filter - 1) / s)))).
Proof.
  intros Hs. unfold shards, len.
  rewrite range_starts by done. cbn [mbind result_bind].
  set (m := if decide (length ds_filter = 0) then 0
            else S ((length ds_filter - 1) / s)).
  assert (Hm : ∀ k, k < m → k * s < length ds_filter).
  { intros k Hk. unfold m in Hk. destruct (decide _) as [|Hn]; [lia|].
    assert (s * ((length ds_filter - 1) / s) ≤ length ds_filter - 1)
      by (apply Nat.Div0.mul_div_le).
    nia. }
  unfold enumerate. rewrite length_map, length_seq, zip_map_map.
  apply mapM_map_Return.
  apply Forall_forall. intros k Hk. apply elem_of_seq in Hk.
  specialize (Hm k ltac:(lia)). cbv beta iota.
  set (c := Nat.min s (length ds_filter - k * s)).
  replace (Z.min (Z.of_nat (length ds_filter))
                 (Z.of_nat (k * s) + Z.of_nat s))
    with (Z.of_nat (k * s + c)) by (unfold c; lia).
  rewrite range_step_1. cbn [mbind result_bind].
  rewrite Dataset_select_seq by (unfold c; lia).
  cbn [mbind result_bind mret result_ret]. do 2 f_equal.
  unfold c. rewrite <- length_drop, <- take_take.
  by rewrite firstn_all.
Qed.

Lemma concat_slices {A} (l : list A) (s m : nat) :
  concat (map (λ k, take s (drop (k * s) l)) (seq 0 m)) = take (m * s) l.
Proof.
  induction m as [|m IH]; [done|].
  rewrite seq_S, map_app, concat_app, IH. simpl.
  rewrite app_nil_r, take_take_drop. f_equal. lia.
Qed.

Lemma shard_count_covers (n s : nat) :
  0 < s → n ≤ (if decide (n = 0) then 0 else S ((n - 1) / s)) * s.
Proof.
  intros Hs. destruct (decide (n = 0)) as [->|Hn]; [done|].
  assert (n - 1 < s * S ((n - 1) / s)) by (apply Nat.mul_succ_div_gt; lia).
  lia.
Qed.

(** C6: for every sequence and every positive [samples_per_file] the
    loop runs to its end, the files are numbered 1, 2, ... in the order
    they are written, and the rows of the shards, put end to end in
    that order, are the filtered sequence itself. *)
Theorem shards_concat {A} (ds_filter : list A) (samples_per_file : Z) :
  (0 < samples_per_file)%Z →
  ∃ out,
    shards ds_filter samples_per_file = Return out
    ∧ concat (map snd out) = ds_filter
    ∧ map fst out = map (λ k, (Z.of_nat k + 1)%Z) (seq 0 (length out)).
Proof.
  intros Hpos.
  rewrite <- (Z2Nat.id samples_per_file) by lia.
  set (s := Z.to_nat samples_per_file).
  assert (Hs : 0 < s) by (unfold s; lia).
  rewrite (shards_eq ds_filter s Hs). eexists. split; [reflexivity|].
  rewrite !map_map, length_map, length_seq. cbn [fst snd].
  split; [|done].
  rewrite (concat_slices ds_filter s). apply take_ge.
  by apply shard_count_covers.
Qed.

(** C7: for every sequence and every positive [samples_per_file],
    every shard but the last holds [samples_per_file] rows, and the
    last holds the remainder of the total by [samples_per_file], or
    [samples_per_file] rows when the remainder is zero; a sequence
    that is not empty has a last shard. *)
Theorem shards_sizes {A} (ds_filter : list A) (samples_per_file : Z) :
  (0 < samples_per_file)%Z →
  ∃ out,
    shards ds_filter samples_per_file = Return out
    ∧ (∀ i number rows,
         out !! i = Some (number, rows) → i + 1 < length out →
         len rows = samples_per_file)
    ∧ (∀ number rows,
         last out = Some (number, rows) →
         len rows
         = if (len ds_filter mod samples_per_file =? 0)%Z
           then samples_per_file
           else (len ds_filter mod samples_per_file)%Z)
    ∧ (ds_filter ≠ [] → ∃ number rows, last out = Some (number, rows)).
Proof.
  intros Hpos.
  rewrite <- (Z2Nat.id samples_per_file) by lia.
  set (s := Z.to_nat samples_per_file).
  assert (Hs : 0 < s) by (unfold s; lia).
  rewrite (shards_eq ds_filter s Hs). eexists. split; [reflexivity|].
  set (n := length ds_filter).
  set (m := if decide (n = 0) then 0 else S ((n - 1) / s)).
  assert (Hrow : ∀ i number rows,
    map (λ k, (Z.of_nat k + 1, take s (drop (k * s) ds_filter))%Z) (seq 0 m)
      !! i = Some (number, rows) →
    i < m ∧ length rows = Nat.min s (n - i * s)).
  { intros i number rows Hi.
    apply list_lookup_fmap_Some in Hi as (k & Heq & Hk).
    apply lookup_seq in Hk as [-> Hk]. injection Heq as _ ->.
    split; [done|]. by rewrite length_take, length_drop. }
  assert (Hq : s * ((n - 1) / s) ≤ n - 1) by apply Nat.Div0.mul_div_le.
  split; [|split].
  - intros i number rows Hi Hlast.
    rewrite length_map, length_seq in Hlast.
    apply Hrow in Hi as [_ Hlen]. unfold len. rewrite Hlen.
    unfold m in Hlast. destruct (decide (n = 0)); [lia|]. nia.
  - intros number rows Hlast.
    rewrite last_lookup, length_map, length_seq in Hlast.
    apply Hrow in Hlast as [Hlt Hlen]. unfold len. rewrite Hlen. fold n.
    unfold m in Hlt |- *. destruct (decide (n = 0)) as [|Hn]; [lia|].
    simpl pred.
    assert (Hr := Nat.div_mod_eq (n - 1) s).
    assert (Hrlt : (n - 1) mod s < s) by (apply Nat.mod_upper_bound; lia).
    set (q := (n - 1) / s) in *. set (r := (n - 1) mod s) in *.
    destruct (decide (S r = s)) as [Hfull|Hpart].
    + assert (Hmod : (Z.of_nat n mod Z.of_nat s = 0)%Z).
      { symmetry. apply (Z.mod_unique_pos _ _ (Z.of_nat (S q))); lia. }
      rewrite Hmod. simpl. lia.
    + assert (Hmod : (Z.of_nat n mod Z.of_nat s = Z.of_nat (S r))%Z).
      { symmetry. apply (Z.mod_unique_pos _ _ (Z.of_nat q)); lia. }
      rewrite Hmod. rewrite (proj2 (Z.eqb_neq _ 0)) by lia. lia.
  - intros Hne. rewrite last_lookup, length_map, length_seq.
    unfold m. destruct (decide (n = 0)) as [Hn0|Hn].
    { apply length_zero_iff_nil in Hn0. by destruct Hne. }
    cbn [pred]. rewrite list_lookup_fmap.
    rewrite (proj2 (lookup_seq 0 _ _ ((n - 1) / s))) by (split; [done|lia]).
    simpl. eauto.
Qed.

(** ** Compressing a shard *)

Lemma gz_path_ne (file_path : str) : file_path ++ lit ".gz" ≠ file_path.
Proof.
  intros Heq. apply (f_equal length) in Heq.
  rewrite length_app in Heq. simpl in Heq. lia.
Qed.

(** C9, as the code has it: when [compress_file] fails the source file
    is as it was before the call; the source is deleted only by a call
    that returns, and then the target holds the whole compressed
    stream; no other file changes. *)
Theorem compress_file_keeps_source_on_failure
    (io : fault) (file_path : str) (files files' : gmap str bytes)
    (r : result unit) :
  compress_file io file_path files = (files', r) →
  (∀ exc, r = Raise exc → files' !! file_path = files !! file_path)
  ∧ (r = Return tt →
     ∃ data, files !! file_path = Some data
             ∧ files' !! file_path = None
             ∧ files' !! (file_path ++ lit ".gz")
               = Some (gzip_compress data))
  ∧ (∀ path, path ≠ file_path → path ≠ file_path ++ lit ".gz" →
             files' !! path = files !! path).
Proof.
  pose proof (gz_path_ne file_path) as Hgz.
  unfold compress_file, io_bind, open_rb, gzip_open_wb, copyfileobj,
    os_unlink.
  destruct (files !! file_path) as [data|] eqn:Hsrc.
  - destruct io; rewrite ?lookup_insert_ne, ?Hsrc by done;
      intros [= <- <-]; (split; [|split]);
      try (intros exc [=]); try (intros [=]); try (intros path Hp Hp');
      try (exists data);
      rewrite ?lookup_delete_eq, ?lookup_delete_ne, ?lookup_insert_ne,
        ?lookup_insert_eq by done; done.
  - intros [= <- <-]. split; [done|]. split; [intros [=]|done].
Qed.

(** ** More on lines and statistics *)

(** The step of [splitlines_from] with the test for "\r\n" written as
    a decision. *)
Lemma splitlines_from_cons (cur : str) (c : N) (rest : str) :
  splitlines_from cur (c :: rest)
  = if is_linebreak c then
      cur :: splitlines_from []
               (if decide (c = 13%N ∧ head rest = Some 10%N)
                then tail rest else rest)
    else splitlines_from (cur ++ [c]) rest.
Proof.
  cbn [splitlines_from]. destruct (is_linebreak c); [|done]. f_equal.
  destruct (decide (c = 13%N)) as [->|Hc].
  - destruct rest as [|d rest'].
    + by rewrite decide_False by (intros [_ [=]]).
    + destruct (decide (d = 10%N)) as [->|Hd].
      * by rewrite decide_True.
      * rewrite decide_False by (intros [_ [=]]; done).
        destruct d as [|p]; [done|].
        do 4 (try destruct p as [p|p|]; try done).
  - rewrite decide_False by (by intros [? _]).
    destruct c as [|p]; [done|].
    do 4 (try destruct p as [p|p|]; try done).
Qed.

Lemma splitlines_from_lengths (s cur : str) :
  Forall (λ line, length line ≤ length cur + length s)
         (splitlines_from cur s).
Proof.
  revert cur. induction s as [s IH] using (induction_ltof1 _ (@length N)).
  unfold ltof in IH. intros cur. destruct s as [|c rest].
  { destruct cur; simpl; [constructor|].
    constructor; [simpl; lia|constructor]. }
  rewrite splitlines_from_cons. destruct (is_linebreak c).
  - constructor; [simpl; lia|].
    destruct (decide _) as [[_ Hhd]|_].
    + destruct rest as [|d rest']; [done|]. cbn [tail].
      eapply Forall_impl; [apply (IH rest'); simpl; lia|].
      simpl. intros line. lia.
    + eapply Forall_impl; [apply (IH rest); simpl; lia|].
      simpl. intros line. lia.
  - eapply Forall_impl; [apply (IH rest); simpl; lia|].
    simpl. intros line. rewrite length_app. simpl. lia.
Qed.

Lemma foldl_max_le (l : list Z) (x B : Z) :
  (x ≤ B)%Z → Forall (λ y, (y ≤ B)%Z) l → (foldl Z.max x l ≤ B)%Z.
Proof.
  intros Hx Hl. revert x Hx.
  induction Hl as [|y l Hy _ IH]; intros x Hx; simpl; [done|].
  apply IH. lia.
Qed.

(** [line_stats] on a content that is not empty. *)
Lemma line_stats_fin (content : str) :
  content ≠ [] →
  ∃ mean m,
    line_stats content = Return (fin mean, m)
    ∧ (0 <= mean)%Q ∧ (mean <= inject_Z m)%Q
    ∧ (0 ≤ m)%Z ∧ (m ≤ len content)%Z.
Proof.
  intros Hne. unfold line_stats.
  pose proof (splitlines_from_lengths content []) as Hlen.
  fold (splitlines content) in Hlen.
  destruct (splitlines content) as [|l ls] eqn:Hs.
  { by apply splitlines_nil_iff in Hs. }
  simpl. eexists _, _. split; [reflexivity|].
  destruct (foldl_max_ge (map len ls) (len l)) as [Hx Hl].
  assert (Hall : Forall (λ y, (0 ≤ y)%Z ∧ (y ≤ len content)%Z)
                        (len l :: map len ls)).
  { change (len l :: map len ls) with (map len (l :: ls)).
    apply Forall_fmap. eapply Forall_impl; [exact Hlen|].
    simpl. unfold len. intros line. lia. }
  split; [|split; [|split]].
  - change 0%Q with (inject_Z 0).
    apply quotient_ge; [apply (len_cons_pos (len l))|].
    apply sum_ge_bound. eapply Forall_impl; [exact Hall|]. simpl. lia.
  - apply quotient_le; [apply (len_cons_pos (len l))|].
    apply (sum_le_bound (len l :: map len ls)). by constructor.
  - apply Forall_cons in Hall as [[H0 _] _]. lia.
  - apply Forall_cons in Hall as [[_ H1] Hrest].
    apply foldl_max_le; [done|].
    eapply Forall_impl; [exact Hrest|]. simpl. lia.
Qed.

(** [alpha_stats] on a content that is not empty. *)
Lemma alpha_stats_fin (content : str) :
  content ≠ [] →
  ∃ q, alpha_stats content = fin q ∧ (0 <= q)%Q ∧ (q <= 1)%Q.
Proof.
  intros Hne. destruct content as [|c rest]; [done|].
  unfold alpha_stats.
  set (flags := map (λ c, Z.b2z (isalnum c)) (c :: rest)).
  assert (Hflags : Forall (λ y, (0 ≤ y)%Z ∧ (y ≤ 1)%Z) flags).
  { apply Forall_fmap, Forall_forall. intros x _.
    simpl. destruct (isalnum x); simpl; lia. }
  assert (Hpos : (0 < len flags)%Z) by apply len_cons_pos.
  exists (inject_Z (sum flags) / inject_Z (len flags))%Q.
  split; [done|]. split.
  - change 0%Q with (inject_Z 0). apply quotient_ge; [done|].
    apply sum_ge_bound. eapply Forall_impl; [exact Hflags|]. simpl. lia.
  - change 1%Q with (inject_Z 1). apply quotient_le; [done|].
    apply sum_le_bound. eapply Forall_impl; [exact Hflags|]. simpl. lia.
Qed.

Lemma preprocess_not_nil (content : str) :
  content ≠ [] →
  ∃ mean m q,
    preprocess content
    = Return {| hash := builtin_hash content;
                line_mean := fin mean; line_max := m;
                alpha_frac := fin q;
                autogenerated := is_autogenerated content |}
    ∧ (0 <= mean)%Q ∧ (mean <= inject_Z m)%Q
    ∧ (0 ≤ m)%Z ∧ (m ≤ len content)%Z
    ∧ (0 <= q)%Q ∧ (q <= 1)%Q.
Proof.
  intros Hne.
  destruct (line_stats_fin content Hne) as (mean & m & Hls & H1 & H2 & H3 & H4).
  destruct (alpha_stats_fin content Hne) as (q & Hq & H5 & H6).
  exists mean, m, q. unfold preprocess, get_hash.
  rewrite Hls. cbn [mbind result_bind mret result_ret]. by rewrite Hq.
Qed.

(** X1: [preprocess] raises [ValueError] on the empty string and on
    nothing else; on every other content it returns the hash of the
    content, a mean line length between 0 and the maximum, a maximum
    between 0 and the length of the content, and a fraction between 0
    and 1, none of them NaN. *)
Theorem preprocess_outcome (content : str) :
  (content = [] → preprocess content = Raise "ValueError")
  ∧ (content ≠ [] →
     ∃ mean m q,
       preprocess content
       = Return {| hash := builtin_hash content;
                   line_mean := fin mean; line_max := m;
                   alpha_frac := fin q;
                   autogenerated := is_autogenerated content |}
       ∧ (0 <= mean)%Q ∧ (mean <= inject_Z m)%Q
       ∧ (0 ≤ m)%Z ∧ (m ≤ len content)%Z
       ∧ (0 <= q)%Q ∧ (q <= 1)%Q).
Proof.
  split; [by intros ->|]. apply preprocess_not_nil.
Qed.

Lemma head_app_newline (rest t : str) :
  head (rest ++ 10%N :: t) = head (rest ++ [10%N]).
Proof. by destruct rest. Qed.

(** What follows a newline is split on its own. *)
Lemma splitlines_from_app_newline (s cur t : str) :
  splitlines_from cur (s ++ 10%N :: t)
  = splitlines_from cur (s ++ [10%N]) ++ splitlines t.
Proof.
  revert cur. induction s as [s IH] using (induction_ltof1 _ (@length N)).
  unfold ltof in IH. intros cur. destruct s as [|c rest].
  { cbn [app]. rewrite !splitlines_from_cons.
    change (is_linebreak 10) with true. cbv iota.
    by rewrite !decide_False by (by intros [[=] _]). }
  rewrite <- !app_comm_cons, !splitlines_from_cons.
  destruct (is_linebreak c).
  - rewrite head_app_newline. rewrite <- app_comm_cons. f_equal.
    destruct (decide _) as [[_ Hhd]|_].
    + destruct rest as [|d rest']; [done|].
      cbn [app tail]. apply IH. simpl. lia.
    + apply IH. simpl. lia.
  - apply IH. simpl. lia.
Qed.

(** A newline after a character that is no line boundary adds no
    line. *)
Lemma splitlines_from_trailing_newline (s cur : str) :
  match last s with
  | Some c => is_linebreak c = false
  | None => cur ≠ []
  end →
  splitlines_from cur (s ++ [10%N]) = splitlines_from cur s.
Proof.
  revert cur. induction s as [s IH] using (induction_ltof1 _ (@length N)).
  unfold ltof in IH. intros cur Hlast. destruct s as [|c rest].
  { cbn [app]. rewrite splitlines_from_cons.
    change (is_linebreak 10) with true. cbv iota.
    rewrite decide_False by (by intros [[=] _]).
    simpl in *. by destruct cur. }
  rewrite last_cons in Hlast.
  rewrite <- app_comm_cons, !splitlines_from_cons.
  destruct (is_linebreak c) eqn:Hc.
  - destruct rest as [|d rest']; [simpl in Hlast; congruence|].
    cbn [app head tail]. f_equal.
    destruct (decide _) as [[_ Hd]|_].
    + injection Hd as ->. rewrite last_cons in Hlast.
      apply IH; [simpl; lia|].
      destruct (last rest'); [done|]. by vm_compute in Hlast.
    + apply (IH (d :: rest')); [simpl; lia|].
      destruct (last (d :: rest')); [done|congruence].
  - apply IH; [simpl; lia|].
    destruct (last rest); [done|]. by destruct cur.
Qed.

(** X2: a newline added after a last character that is no line
    boundary changes neither the line statistics nor the autogenerated
    flag. *)
Theorem trailing_newline_invariant (content : str) (c : N) :
  last content = Some c → is_linebreak c = false →
  line_stats (content ++ [10%N]) = line_stats content
  ∧ is_autogenerated (content ++ [10%N]) = is_autogenerated content.
Proof.
  intros Hlast Hc.
  assert (Hsplit : splitlines (content ++ [10%N]) = splitlines content).
  { apply splitlines_from_trailing_newline. by rewrite Hlast. }
  unfold line_stats, is_autogenerated. by rewrite Hsplit.
Qed.

(** ** More on the autogenerated flag *)

Lemma startswith_iff (s prefix : str) :
  startswith s prefix = true ↔ ∃ post, s = prefix ++ post.
Proof.
  revert s. induction prefix as [|a prefix IH]; intros s.
  { destruct s; simpl; (split; [eauto|done]). }
  destruct s as [|b s]; simpl.
  { split; [done|]. by intros [post [=]]. }
  rewrite andb_true_iff, N.eqb_eq, IH. split.
  - intros [-> [post ->]]. eauto.
  - intros [post [= -> ->]]. eauto.
Qed.

Lemma str_in_iff (needle hay : str) :
  str_in needle hay = true ↔ ∃ pre post, hay = pre ++ needle ++ post.
Proof.
  induction hay as [|b hay IH]; cbn [str_in].
  - rewrite orb_false_r, startswith_iff. split.
    + intros [post ->]. by exists [], post.
    + intros (pre & post & Heq). destruct pre; [by exists post|done].
  - rewrite orb_true_iff, startswith_iff, IH. split.
    + intros [[post ->]|(pre & post & ->)].
      * by exists [], post.
      * by exists (b :: pre), post.
    + intros (pre & post & Heq). destruct pre as [|b' pre].
      * left. by exists post.
      * injection Heq as -> ->. right. by exists pre, post.
Qed.

(** X3: the flag is set exactly when one of the first five lines,
    lowered, contains one of the three keywords as a substring. *)
Theorem is_autogenerated_iff (content : str) :
  is_autogenerated content = true
  ↔ ∃ i line keyword pre post,
      i < 5 ∧ splitlines content !! i = Some line
      ∧ keyword ∈ keywords
      ∧ lower line = pre ++ keyword ++ post.
Proof.
  unfold is_autogenerated, scan_width. rewrite existsb_exists. split.
  - intros (line & Hline & Hkw).
    apply existsb_exists in Hkw as (keyword & Hk & Hin).
    apply str_in_iff in Hin as (pre & post & Heq).
    apply list_elem_of_In, list_elem_of_lookup in Hline as [i Hi].
    apply lookup_take_Some in Hi as [Hi Hlt].
    exists i, line, keyword, pre, post.
    by rewrite <- list_elem_of_In in Hk.
  - intros (i & line & keyword & pre & post & Hlt & Hi & Hk & Heq).
    exists line. split.
    + apply list_elem_of_In, list_elem_of_lookup. exists i.
      by apply lookup_take_Some.
    + apply existsb_exists. exists keyword.
      split; [by apply list_elem_of_In|].
      apply str_in_iff. eauto.
Qed.

(** X4: once the content holds five lines, the last closed by a
    newline, nothing that follows changes the flag. *)
Theorem is_autogenerated_ignores_later_lines (content more : str) :
  5 ≤ length (splitlines (content ++ [10%N])) →
  is_autogenerated (content ++ 10%N :: more)
  = is_autogenerated (content ++ [10%N]).
Proof.
  intros Hfive. unfold is_autogenerated, scan_width, splitlines in *.
  rewrite splitlines_from_app_newline. by rewrite take_app_le.
Qed.

Lemma is_linebreak_letter (c : N) :
  (65 ≤ c)%N → (c ≤ 122)%N → is_linebreak c = false.
Proof.
  intros Hlo Hhi. apply bool_decide_eq_false_2.
  rewrite !elem_of_cons, elem_of_nil. lia.
Qed.

Lemma ascii_lower_cases (c : N) :
  ascii_lower c = c ∨ ((65 ≤ c)%N ∧ (c ≤ 90)%N ∧ ascii_lower c = (c + 32)%N).
Proof.
  unfold ascii_lower. destruct (_ && _) eqn:Hc; [|by left].
  apply andb_true_iff in Hc as [H1 H2].
  apply N.leb_le in H1, H2. by right.
Qed.

Lemma is_linebreak_ascii_lower (c : N) :
  is_linebreak (ascii_lower c) = is_linebreak c.
Proof.
  destruct (ascii_lower_cases c) as [->|(H1 & H2 & ->)]; [done|].
  rewrite !is_linebreak_letter by lia. done.
Qed.

Lemma ascii_lower_eq (c d : N) :
  (d < 65)%N → ascii_lower c = d ↔ c = d.
Proof.
  intros Hd. destruct (ascii_lower_cases c) as [->|(H1 & H2 & ->)]; [done|].
  lia.
Qed.

(** Lowering the letters of a content lowers its lines. *)
Lemma splitlines_from_map_lower (s cur : str) :
  splitlines_from (map ascii_lower cur) (map ascii_lower s)
  = map (map ascii_lower) (splitlines_from cur s).
Proof.
  revert cur. induction s as [s IH] using (induction_ltof1 _ (@length N)).
  unfold ltof in IH. intros cur. destruct s as [|c rest].
  { by destruct cur. }
  cbn [map]. rewrite !splitlines_from_cons, is_linebreak_ascii_lower.
  destruct (is_linebreak c).
  - cbn [map]. f_equal.
    destruct (decide (c = 13%N ∧ head rest = Some 10%N)) as [[-> Hhd]|Hno].
    + destruct rest as [|d rest']; [done|]. injection Hhd as ->.
      rewrite decide_True by done. cbn [map tail].
      apply (IH rest' ltac:(simpl; lia) []).
    + rewrite decide_False.
      * apply (IH rest ltac:(simpl; lia) []).
      * intros [Hc Hhd]. apply Hno.
        apply (proj1 (ascii_lower_eq c 13 ltac:(lia))) in Hc.
        split; [done|]. destruct rest as [|d rest']; [done|].
        injection Hhd as Hd.
        apply (proj1 (ascii_lower_eq d 10 ltac:(lia))) in Hd.
        by subst d.
  - rewrite <- (IH rest ltac:(simpl; lia) (cur ++ [c])).
    by rewrite map_app.
Qed.

Lemma splitlines_from_ascii (s cur : str) :
  is_ascii cur = true → is_ascii s = true →
  Forall (λ line, is_ascii line = true) (splitlines_from cur s).
Proof.
  revert cur. induction s as [s IH] using (induction_ltof1 _ (@length N)).
  unfold ltof in IH. intros cur Hcur Hs. destruct s as [|c rest].
  { destruct cur; simpl; repeat constructor; done. }
  rewrite splitlines_from_cons.
  cbn [is_ascii forallb] in Hs. apply andb_true_iff in Hs as [Hc Hrest].
  destruct (is_linebreak c).
  - constructor; [done|]. destruct (decide _) as [[_ Hhd]|_].
    + destruct rest as [|d rest']; [done|].
      cbn [is_ascii forallb] in Hrest.
      apply andb_true_iff in Hrest as [_ Hrest'].
      apply IH; [simpl; lia|done|done].
    + apply IH; [simpl; lia|done|done].
  - apply IH; [simpl; lia| |done].
    unfold is_ascii in *. rewrite forallb_app, Hcur. simpl. by rewrite Hc.
Qed.

(** X5: the flag does not depend on the case of ASCII letters: two
    ASCII contents that are equal once lowered get the same flag. *)
Theorem is_autogenerated_case_insensitive (content1 content2 : str) :
  is_ascii content1 = true → is_ascii content2 = true →
  map ascii_lower content1 = map ascii_lower content2 →
  is_autogenerated content1 = is_autogenerated content2.
Proof.
  assert (Hlow : ∀ content, is_ascii content = true →
    is_autogenerated content
    = existsb (λ line, existsb (λ keyword, str_in keyword line) keywords)
              (take scan_width (splitlines (map ascii_lower content)))).
  { intros content Hascii. unfold is_autogenerated, splitlines.
    rewrite (splitlines_from_map_lower content []
             : splitlines_from [] (map ascii_lower content) = _).
    pose proof (splitlines_from_ascii content [] eq_refl Hascii) as Hlines.
    revert Hlines. generalize (splitlines_from [] content) as lines.
    generalize scan_width as n. intros n lines. revert n.
    induction lines as [|line lines IH]; intros n Hlines.
    { by destruct n. }
    apply Forall_cons in Hlines as [Hline Hlines].
    destruct n as [|n]; [done|]. cbn [take map existsb].
    rewrite (IH n Hlines). f_equal.
    unfold lower. by rewrite Hline. }
  intros H1 H2 Heq. by rewrite (Hlow _ H1), (Hlow _ H2), Heq.
Qed.

(** ** More on the filter *)

Lemma verdict_true_iff (e : Example) (uniques : gset Z) :
  bool_decide (hash (attrs e) ∈ uniques)
  && negb (autogenerated (attrs e))
  && negb (line_max (attrs e) >? 1000)%Z
  && negb (float_gt (line_mean (attrs e)) 100)
  && negb (float_lt (alpha_frac (attrs e)) (1 # 4)) = true
  ↔ hash (attrs e) ∈ uniques ∧ passes_heuristics (attrs e).
Proof.
  unfold passes_heuristics.
  rewrite !andb_true_iff, bool_decide_eq_true, !negb_true_iff.
  rewrite Z.gtb_ltb, Z.ltb_ge.
  assert (Hmean : float_gt (line_mean (attrs e)) 100 = false
    ↔ match line_mean (attrs e) with
      | nan => True | fin q => (q <= 100)%Q end).
  { destruct (line_mean (attrs e)) as [|q]; simpl; [done|].
    unfold Qlt_bool. by rewrite negb_false_iff, Qle_bool_iff. }
  assert (Halpha : float_lt (alpha_frac (attrs e)) (1 # 4) = false
    ↔ match alpha_frac (attrs e) with
      | nan => True | fin q => (1 # 4 <= q)%Q end).
  { destruct (alpha_frac (attrs e)) as [|q]; simpl; [done|].
    unfold Qlt_bool. by rewrite negb_false_iff, Qle_bool_iff. }
  rewrite Hmean, Halpha. tauto.
Qed.

(** X6: [filter] accepts a record exactly when its hash is still in
    the set, it is not flagged autogenerated, its longest line has at
    most 1000 characters, its mean line length is at most 100 and its
    alphanumeric fraction at least 0.25; the bounds themselves pass,
    and so does a NaN statistic. *)
Theorem filter_accepts_iff (example : Example) (uniques : gset Z) :
  (∃ uniques', filter example uniques = Return (true, uniques'))
  ↔ hash (attrs example) ∈ uniques ∧ passes_heuristics (attrs example).
Proof.
  rewrite filter_eq, <- verdict_true_iff. split.
  - by intros [uniques' [= -> _]].
  - intros ->. eauto.
Qed.

(** The filter pass over a dataset, in full. *)
Lemma filter_mask_filter_spec (ds : list Example) (uniques : gset Z) :
  ∃ mask,
    filter_mask filter ds uniques
    = Return (mask, uniques ∖ list_to_set (map (λ e, hash (attrs e)) ds))
    ∧ length mask = length ds
    ∧ (∀ j ej, ds !! j = Some ej →
         mask !! j = Some true
         ↔ hash (attrs ej) ∈ uniques
           ∧ (∀ i ei, i < j → ds !! i = Some ei →
                      hash (attrs ei) ≠ hash (attrs ej))
           ∧ passes_heuristics (attrs ej))
    ∧ select_mask ds mask `sublist_of` ds
    ∧ NoDup (map (λ e, hash (attrs e)) (select_mask ds mask))
    ∧ Forall (λ e, hash (attrs e) ∈ uniques ∧ passes_heuristics (attrs e))
             (select_mask ds mask).
Proof.
  revert uniques. induction ds as [|e ds IH]; intros u.
  { exists []. simpl. split; [do 2 f_equal; set_solver|].
    split; [done|]. split; [done|]. split; [done|].
    split; constructor. }
  destruct (IH (u ∖ {[hash (attrs e)]}))
    as (mask & Hrun & Hlen & Hiff & Hsub & Hnd & Hall).
  rewrite filter_mask_filter_cons, Hrun.
  eexists. split; [do 2 f_equal; set_solver|].
  split; [simpl; by rewrite Hlen|].
  pose proof (verdict_true_iff e u) as Hv.
  set (v := bool_decide _ && _ && _ && _ && _) in *.
  split; [|split; [|split]].
  - intros [|j] ej Hj; simpl in *.
    + injection Hj as <-. split.
      * intros [= Hvt]. apply Hv in Hvt as [Hin Hp].
        split; [done|]. split; [|done]. intros i ei Hi. lia.
      * intros (Hin & _ & Hp). f_equal. apply Hv. done.
    + rewrite (Hiff j ej Hj). split.
      * intros (Hin & Hfirst & Hp). split; [set_solver|].
        split; [|done]. intros [|i] ei Hi Hei; simpl in *.
        -- injection Hei as <-. set_solver.
        -- apply Hfirst with i; [lia|done].
      * intros (Hin & Hfirst & Hp). split; [|split; [|done]].
        -- assert (hash (attrs e) ≠ hash (attrs ej))
             by (apply (Hfirst 0 e); [lia|done]).
           set_solver.
        -- intros i ei Hi Hei. apply (Hfirst (S i) ei); [lia|done].
  - simpl. destruct v; [by apply sublist_skip|by apply sublist_cons].
  - simpl. destruct v; [|done]. cbn [map]. apply NoDup_cons. split; [|done].
    intros Hin. apply list_elem_of_fmap in Hin as (e' & Heq & He').
    rewrite Forall_forall in Hall. destruct (Hall e' He') as [Hin' _].
    set_solver.
  - simpl. assert (Hall' : Forall (λ e0 : Example,
        hash (attrs e0) ∈ u ∧ passes_heuristics (attrs e0))
        (select_mask ds mask)).
    { eapply Forall_impl; [exact Hall|]. simpl. intros e0 [H1 H2].
      split; [set_solver|done]. }
    destruct v eqn:Hvt; [|done]. constructor; [|done].
    by apply Hv.
Qed.

(** ** The script as a whole *)

Lemma Dataset_map_inv (contents : list str) (rows : list Example) :
  Dataset_map contents = Return rows →
  map content rows = contents
  ∧ Forall (λ e, content e ≠ []
                 ∧ preprocess (content e) = Return (attrs e)) rows.
Proof.
  unfold Dataset_map. revert rows.
  induction contents as [|c contents IH]; intros rows; cbn [mapM].
  { intros [= <-]. by split. }
  destruct (preprocess c) as [a|exc] eqn:Hc; [|done].
  cbn [mbind result_bind mret result_ret].
  destruct (mapM _ contents) as [rows'|exc] eqn:Hrest; [|done].
  cbn [mbind result_bind mret result_ret]. intros [= <-].
  destruct (IH rows' eq_refl) as [Hcontents Hrows].
  split; [simpl; by rewrite Hcontents|].
  constructor; [|done]. simpl. split; [|done].
  intros ->. discriminate.
Qed.

Lemma Dataset_map_Return (contents : list str) :
  [] ∉ contents → ∃ rows, Dataset_map contents = Return rows.
Proof.
  clear gzip_compress.
  unfold Dataset_map. induction contents as [|c contents IH]; intros Hne.
  { by exists []. }
  destruct (preprocess_not_nil c) as (mean & m & q & Hc & _).
  { intros ->. apply Hne. by left. }
  destruct IH as [rows Hrows]; [set_solver|].
  cbn [mapM]. rewrite Hc. cbn [mbind result_bind mret result_ret].
  rewrite Hrows. cbn [mbind result_bind mret result_ret]. eauto.
Qed.

Lemma Dataset_map_Raise (contents : list str) :
  [] ∈ contents → Dataset_map contents = Raise "ValueError".
Proof.
  unfold Dataset_map. induction contents as [|c contents IH]; intros Hin.
  { by apply elem_of_nil in Hin. }
  cbn [mapM]. destruct (decide (c = [])) as [->|Hc]; [done|].
  destruct (preprocess_not_nil c Hc) as (mean & m & q & Hpre & _).
  rewrite Hpre. cbn [mbind result_bind mret result_ret].
  rewrite IH; [done|]. apply elem_of_cons in Hin as [Heq|Hin]; [|done].
  by subst c.
Qed.

Lemma pipeline_inv (contents : list str) (run : Run) :
  pipeline contents = Return run →
  ∃ rows mask uniques',
    Dataset_map contents = Return rows
    ∧ rows ≠ []
    ∧ filter_mask filter rows (list_to_set (Dataset_unique_hash rows))
      = Return (mask, uniques')
    ∧ run = {| ds := rows; data_hash := remove_content rows;
               uniques0 := list_to_set (Dataset_unique_hash rows);
               mask := mask; uniques1 := uniques';
               ds_filter := select_mask rows mask |}.
Proof.
  unfold pipeline.
  destruct (Dataset_map contents) as [rows|exc] eqn:Hmap; [|done].
  cbn [mbind result_bind]. destruct rows as [|e rows]; [done|].
  cbn [Dataset_unique mbind result_bind].
  change (len (e :: rows) =? 0)%Z with false. cbn [mbind result_bind].
  destruct (filter_mask filter (e :: rows) _)
    as [[mask uniques']|exc] eqn:Hpass; [|done].
  cbn [mbind result_bind mret result_ret]. intros [= <-].
  by exists (e :: rows), mask, uniques'.
Qed.

(** X7: the script stops with [ValueError] on an empty dataset (the
    column of hashes is missing when the set of hashes is built,
    before the division by the number of rows) and as soon as one
    content is the empty string; on every other dataset it reaches the
    end of the filter pass. *)
Theorem pipeline_outcome (contents : list str) :
  (contents = [] → pipeline contents = Raise "ValueError")
  ∧ ([] ∈ contents → pipeline contents = Raise "ValueError")
  ∧ (contents ≠ [] → [] ∉ contents → ∃ run, pipeline contents = Return run).
Proof.
  split; [by intros ->|]. split.
  - intros Hin. unfold pipeline. by rewrite Dataset_map_Raise.
  - intros Hne Hnil. destruct (Dataset_map_Return contents Hnil) as [rows Hrows].
    destruct (Dataset_map_inv contents rows Hrows) as [Hc _].
    unfold pipeline. rewrite Hrows. cbn [mbind result_bind].
    destruct rows as [|e rows]; [by subst contents|].
    cbn [Dataset_unique mbind result_bind].
    change (len (e :: rows) =? 0)%Z with false. cbn [mbind result_bind].
    destruct (filter_mask_filter_spec (e :: rows)
                (list_to_set (Dataset_unique_hash (e :: rows))))
      as (mask & Hrun & _).
    rewrite Hrun. cbn [mbind result_bind mret result_ret]. eauto.
Qed.

Lemma pipeline_rows_spec (contents : list str) (run : Run) :
  pipeline contents = Return run →
  map content (ds run) = contents
  ∧ data_hash run = map attrs (ds run)
  ∧ map hash (data_hash run) = map builtin_hash contents
  ∧ Forall (λ a, ∃ mean q,
              line_mean a = fin mean ∧ alpha_frac a = fin q
              ∧ (0 <= mean)%Q ∧ (mean <= inject_Z (line_max a))%Q
              ∧ (0 <= q)%Q ∧ (q <= 1)%Q) (data_hash run).
Proof.
  intros Hrun.
  apply pipeline_inv in Hrun as (rows & mask & u' & Hmap & _ & _ & ->).
  apply Dataset_map_inv in Hmap as [Hcontents Hrows]. cbn [ds data_hash].
  split; [done|]. split; [done|]. unfold remove_content.
  assert (Hattrs : Forall (λ e, ∃ mean m q,
    attrs e = {| hash := builtin_hash (content e);
                 line_mean := fin mean; line_max := m;
                 alpha_frac := fin q;
                 autogenerated := is_autogenerated (content e) |}
    ∧ (0 <= mean)%Q ∧ (mean <= inject_Z m)%Q
    ∧ (0 <= q)%Q ∧ (q <= 1)%Q) rows).
  { eapply Forall_impl; [exact Hrows|]. simpl. intros e [Hne Hpre].
    destruct (preprocess_not_nil (content e) Hne)
      as (mean & m & q & Heq & H1 & H2 & _ & _ & H5 & H6).
    rewrite Heq in Hpre. injection Hpre as <-. by exists mean, m, q. }
  split.
  - rewrite <- Hcontents, !map_map. apply map_ext_Forall.
    eapply Forall_impl; [exact Hattrs|]. simpl.
    by intros e (mean & m & q & -> & _).
  - apply Forall_fmap. eapply Forall_impl; [exact Hattrs|]. simpl.
    intros e (mean & m & q & -> & H1 & H2 & H5 & H6). by exists mean, q.
Qed.

(** X8: when the script reaches the end of the filter pass, the rows
    are the contents in their order, each with the hash of its
    content; the export has one entry per row, with that hash; and no
    row holds a NaN: the mean line length lies between 0 and the
    longest line, the fraction between 0 and 1. *)
Theorem pipeline_rows (contents : list str) (run : Run) :
  pipeline contents = Return run →
  map content (ds run) = contents
  ∧ data_hash run = map attrs (ds run)
  ∧ map hash (data_hash run) = map builtin_hash contents
  ∧ Forall (λ a, ∃ mean q,
              line_mean a = fin mean ∧ alpha_frac a = fin q
              ∧ (0 <= mean)%Q ∧ (mean <= inject_Z (line_max a))%Q
              ∧ (0 <= q)%Q ∧ (q <= 1)%Q) (data_hash run).
Proof. apply pipeline_rows_spec. Qed.

(** X9: the set the filter starts from holds exactly the hashes of the
    contents, and the filter pass leaves it empty. *)
Theorem pipeline_uniques (contents : list str) (run : Run) :
  pipeline contents = Return run →
  (∀ h, h ∈ uniques0 run ↔ ∃ c, c ∈ contents ∧ h = builtin_hash c)
  ∧ uniques1 run = ∅.
Proof.
  clear gzip_compress.
  intros Hrun.
  pose proof (pipeline_rows_spec contents run Hrun) as (Hc & Hd & Hh & _).
  apply pipeline_inv in Hrun as (rows & mask & u' & Hmap & _ & Hpass & ->).
  cbn [ds data_hash uniques0 uniques1] in *.
  unfold remove_content in Hh. rewrite map_map in Hh.
  split.
  - intros h. unfold Dataset_unique_hash.
    rewrite elem_of_list_to_set, elem_of_remove_dups, Hh.
    rewrite list_elem_of_fmap. naive_solver.
  - destruct (filter_mask_filter_spec rows
                (list_to_set (Dataset_unique_hash rows)))
      as (mask' & Hpass' & _).
    rewrite Hpass' in Hpass. injection Hpass as _ <-.
    unfold Dataset_unique_hash. apply set_eq. intros h.
    rewrite elem_of_difference, !elem_of_list_to_set, elem_of_remove_dups.
    set_solver.
Qed.


(** X11: the kept rows are rows of the dataset in their order; no two
    of them have the same hash, nor the same content; each passes the
    four heuristics; and there are at most as many as distinct
    hashes. *)
Theorem pipeline_survivors (contents : list str) (run : Run) :
  pipeline contents = Return run →
  ds_filter run `sublist_of` ds run
  ∧ NoDup (map (λ e, hash (attrs e)) (ds_filter run))
  ∧ NoDup (map content (ds_filter run))
  ∧ Forall (λ e, passes_heuristics (attrs e)) (ds_filter run)
  ∧ length (ds_filter run) ≤ size (uniques0 run).
Proof.
  clear gzip_compress.
  intros Hrun.
  apply pipeline_inv in Hrun as (rows & mask & u' & Hmap & _ & Hpass & ->).
  apply Dataset_map_inv in Hmap as [_ Hrows].
  cbn [ds ds_filter uniques0].
  destruct (filter_mask_filter_spec rows
              (list_to_set (Dataset_unique_hash rows)))
    as (mask' & Hpass' & _ & _ & Hsub & Hnd & Hall).
  rewrite Hpass' in Hpass. injection Hpass as <- _.
  set (kept := select_mask rows mask') in *.
  split; [done|]. split; [done|].
  split; [|split].
  - assert (Hhash : map (λ e, hash (attrs e)) kept
                    = map builtin_hash (map content kept)).
    { rewrite map_map. apply map_ext_Forall, Forall_forall.
      intros e He. rewrite Forall_forall in Hrows.
      destruct (Hrows e) as [Hne Hpre].
      { by eapply elem_of_sublist. }
      destruct (preprocess_not_nil (content e) Hne)
        as (mean & m & q & Heq & _).
      rewrite Heq in Hpre. by injection Hpre as <-. }
    rewrite Hhash in Hnd. by apply NoDup_fmap_1 in Hnd.
  - eapply Forall_impl; [exact Hall|]. simpl. tauto.
  - rewrite <- (length_map (λ e, hash (attrs e))).
    rewrite <- (size_list_to_set (C := gset Z)) by done.
    apply subseteq_size. intros h Hh.
    apply elem_of_list_to_set, list_elem_of_fmap in Hh as (e & -> & He).
    rewrite Forall_forall in Hall. by destruct (Hall e He).
Qed.

(** ** More on the shards *)

(** Counting down from 0 to a length yields nothing. *)
Lemma range_backwards (stop step : Z) :
  (0 ≤ stop)%Z → (step < 0)%Z → range 0 stop step = Return [].
Proof.
  intros Hstop Hstep. unfold range, range_len.
  rewrite (proj2 (Z.eqb_neq step 0)) by lia.
  rewrite (proj2 (Z.ltb_ge 0 step)) by lia.
  by rewrite (proj2 (Z.ltb_ge stop 0)) by lia.
Qed.

(** X12: a [samples_per_file] of zero stops the loop with a
    [ValueError] before anything is written, and a negative one makes
    the loop run no round at all: no shard is written, whatever the
    dataset holds. *)
Theorem shards_without_positive_size {A} (ds_filter : list A)
    (samples_per_file : Z) :
  (samples_per_file = 0%Z →
   shards ds_filter samples_per_file = Raise "ValueError")
  ∧ ((samples_per_file < 0)%Z →
     shards ds_filter samples_per_file = Return []).
Proof.
  split.
  - by intros ->.
  - intros Hneg. unfold shards.
    by rewrite range_backwards by (unfold len; lia).
Qed.

Lemma shard_index_in_range (n s k : nat) :
  0 < s → k < (if decide (n = 0) then 0 else S ((n - 1) / s)) → k * s < n.
Proof.
  intros Hs Hk. destruct (decide (n = 0)) as [|Hn]; [lia|].
  assert (s * ((n - 1) / s) ≤ n - 1) by apply Nat.Div0.mul_div_le.
  nia.
Qed.

(** X13: for a positive [samples_per_file] the loop writes
    [ceil(len / samples_per_file)] shards, none for an empty dataset,
    and no shard is empty or larger than [samples_per_file]. *)
Theorem shards_count {A} (ds_filter : list A) (samples_per_file : Z) :
  (0 < samples_per_file)%Z →
  ∃ out,
    shards ds_filter samples_per_file = Return out
    ∧ len out = ((len ds_filter + samples_per_file - 1) / samples_per_file)%Z
    ∧ Forall (λ shard, shard.2 ≠ []
                       ∧ (len shard.2 ≤ samples_per_file)%Z) out.
Proof.
  intros Hpos.
  rewrite <- (Z2Nat.id samples_per_file) by lia.
  set (s := Z.to_nat samples_per_file).
  assert (Hs : 0 < s) by (unfold s; lia).
  rewrite (shards_eq ds_filter s Hs). eexists. split; [reflexivity|].
  set (n := length ds_filter).
  split.
  - unfold len. rewrite length_map, length_seq. fold n.
    destruct (decide (n = 0)) as [->|Hn].
    + simpl. rewrite Z.div_small; lia.
    + replace (Z.of_nat n + Z.of_nat s - 1)%Z
        with (Z.of_nat (n - 1) + 1 * Z.of_nat s)%Z by lia.
      rewrite Z.div_add by lia. rewrite Nat2Z.inj_succ, Nat2Z.inj_div. lia.
  - apply Forall_fmap, Forall_forall. intros k Hk.
    apply elem_of_seq in Hk.
    assert (k * s < n) by (apply (shard_index_in_range n s k); [done|lia]).
    cbn [snd]. split.
    + intros Hnil. apply (f_equal length) in Hnil. cbn [snd] in Hnil.
      rewrite length_take, length_drop in Hnil. simpl in Hnil.
      fold n in Hnil. lia.
    + unfold len. cbn [snd]. rewrite length_take. lia.
Qed.

(** X14: for a positive [samples_per_file] the row at index [i] of the
    filtered sequence is in the shard written to file number
    [i / samples_per_file + 1], at position [i mod samples_per_file]
    of that shard. *)
Theorem shards_row_position {A} (ds_filter : list A) (samples_per_file : Z) :
  (0 < samples_per_file)%Z →
  ∃ out,
    shards ds_filter samples_per_file = Return out
    ∧ ∀ i x, ds_filter !! i = Some x →
        ∃ rows,
          out !! (i / Z.to_nat samples_per_file)
          = Some ((Z.of_nat i / samples_per_file + 1)%Z, rows)
          ∧ rows !! (i mod Z.to_nat samples_per_file) = Some x.
Proof.
  intros Hpos.
  set (s := Z.to_nat samples_per_file).
  assert (Hs : 0 < s) by (unfold s; lia).
  assert (Hspf : samples_per_file = Z.of_nat s) by (unfold s; lia).
  clearbody s. subst samples_per_file.
  rewrite (shards_eq ds_filter s Hs). eexists. split; [reflexivity|].
  intros i x Hi.
  assert (Hlt : i < length ds_filter) by by eapply lookup_lt_Some.
  exists (take s (drop (i / s * s) ds_filter)). split.
  - rewrite list_lookup_fmap.
    rewrite (proj2 (lookup_seq 0 _ (i / s) (i / s))).
    + simpl. rewrite Nat2Z.inj_div. done.
    + split; [done|]. destruct (decide _) as [|Hn]; [lia|].
      apply Nat.lt_succ_r, Nat.Div0.div_le_mono. lia.
  - rewrite lookup_take_lt by (apply Nat.mod_upper_bound; lia).
    rewrite lookup_drop. rewrite <- Hi. f_equal.
    pose proof (Nat.div_mod_eq i s). lia.
Qed.

(** ** More on compressing a shard *)

Lemma compress_file_no_fault (file_path : str) (files : gmap str bytes)
    (data : bytes) :
  files !! file_path = Some data →
  compress_file no_fault file_path files
  = (delete file_path
       (<[file_path ++ lit ".gz" := gzip_compress data]> files),
     Return tt).
Proof.
  intros Hsrc.
  unfold compress_file, io_bind, open_rb, gzip_open_wb, copyfileobj,
    os_unlink.
  rewrite Hsrc. rewrite !lookup_insert_ne by apply gz_path_ne.
  rewrite Hsrc. by rewrite insert_insert_eq.
Qed.

Lemma compress_file_fault (io : fault) (file_path : str)
    (files : gmap str bytes) (data : bytes) :
  io ≠ no_fault → files !! file_path = Some data →
  ∃ files' exc,
    compress_file io file_path files = (files', Raise exc)
    ∧ files' !! file_path = Some data
    ∧ ∀ path, path ≠ file_path ++ lit ".gz" →
              files' !! path = files !! path.
Proof.
  intros Hio Hsrc. pose proof (gz_path_ne file_path) as Hgz.
  unfold compress_file, io_bind, open_rb, gzip_open_wb, copyfileobj,
    os_unlink.
  rewrite Hsrc.
  destruct io; [done| | | |];
    rewrite ?lookup_insert_ne, ?Hsrc by done;
    eexists _, _; (split; [reflexivity|]);
    (split; [by rewrite ?lookup_insert_ne by done|]);
    intros path Hp; by rewrite ?lookup_insert_ne by done.
Qed.

(** X15: [compress_file] on a path that names no file raises
    [FileNotFoundError] and changes nothing; when the file exists and
    nothing fails it returns, and the file is replaced by its
    compressed copy under the name with ".gz" added, whatever that
    name held before. *)
Theorem compress_file_outcome (io : fault) (file_path : str)
    (files : gmap str bytes) :
  (files !! file_path = None →
   compress_file io file_path files = (files, Raise "FileNotFoundError"))
  ∧ (∀ data, files !! file_path = Some data → io = no_fault →
       compress_file io file_path files
       = (delete file_path
            (<[file_path ++ lit ".gz" := gzip_compress data]> files),
          Return tt)).
Proof.
  split.
  - intros Hsrc. unfold compress_file, io_bind, open_rb. by rewrite Hsrc.
  - intros data Hsrc ->. by apply compress_file_no_fault.
Qed.

(** ** The names of the shard files *)

Lemma int_of_digits_snoc (s : str) (c : N) :
  int_of_digits (s ++ [c]) = (int_of_digits s * 10 + (c - 48))%N.
Proof. unfold int_of_digits. by rewrite foldl_app. Qed.

Lemma int_of_digits_zeros (k : nat) (s : str) :
  int_of_digits (replicate k 48%N ++ s) = int_of_digits s.
Proof.
  unfold int_of_digits. rewrite foldl_app.
  replace (foldl _ 0%N (replicate k 48%N)) with 0%N; [done|].
  induction k as [|k IH]; [done|]. simpl. exact IH.
Qed.

Lemma digits_from_acc (fuel : nat) (n : N) (acc : str) :
  digits_from fuel n acc = digits_from fuel n [] ++ acc.
Proof.
  revert n acc. induction fuel as [|fuel IH]; intros n acc; [done|].
  cbn [digits_from]. destruct (n / 10 =? 0)%N; [done|].
  rewrite (IH _ (_ :: acc)), (IH _ [_]). by rewrite <- app_assoc.
Qed.

Lemma digits_from_step (fuel : nat) (n : N) :
  digits_from (S fuel) n []
  = (if (n / 10 =? 0)%N then [] else digits_from fuel (n / 10) [])
    ++ [(48 + n mod 10)%N].
Proof.
  cbn [digits_from]. destruct (n / 10 =? 0)%N; [done|].
  apply digits_from_acc.
Qed.

Lemma int_of_digits_from (fuel : nat) (n : N) :
  (n < 2 ^ N.of_nat fuel)%N → 0 < fuel →
  int_of_digits (digits_from fuel n []) = n.
Proof.
  revert n. induction fuel as [|fuel IH]; intros n Hn Hfuel; [lia|].
  rewrite digits_from_step, int_of_digits_snoc.
  pose proof (N.div_mod n 10 ltac:(lia)) as Hdm.
  pose proof (N.mod_lt n 10 ltac:(lia)) as Hmod.
  rewrite Nat2N.inj_succ, N.pow_succ_r' in Hn.
  revert Hdm Hmod IH. generalize (n / 10)%N (n mod 10)%N. intros q r Hdm Hr IH.
  replace (48 + r - 48)%N with r by lia.
  destruct (N.eqb_spec q 0) as [Hz|Hnz].
  - change (int_of_digits []) with 0%N. lia.
  - rewrite IH; [lia|lia|].
    destruct fuel; [|lia]. simpl in Hn. lia.
Qed.

Lemma digits_fuel (n : N) : (n < 2 ^ N.of_nat (S (N.to_nat (N.log2 n))))%N.
Proof.
  rewrite Nat2N.inj_succ, N2Nat.id.
  destruct (N.eq_dec n 0%N) as [->|Hn]; [done|].
  apply N.log2_spec. lia.
Qed.

Lemma int_of_digits_digits (n : N) : int_of_digits (digits n) = n.
Proof. apply int_of_digits_from; [apply digits_fuel|lia]. Qed.


Lemma format_012_nonneg (n : Z) :
  (0 ≤ n)%Z →
  format_012 n
  = replicate (12 - length (digits (Z.to_N n))) 48%N ++ digits (Z.to_N n).
Proof.
  intros Hn. unfold format_012.
  rewrite (proj2 (Z.ltb_ge n 0)) by lia. cbn [app length].
  replace (Z.abs_N n) with (Z.to_N n) by lia.
  by rewrite Nat.sub_0_r.
Qed.


Lemma format_012_inj (a b : Z) :
  (0 ≤ a)%Z → (0 ≤ b)%Z → format_012 a = format_012 b → a = b.
Proof.
  intros Ha Hb Heq. apply (f_equal int_of_digits) in Heq.
  rewrite !format_012_nonneg, !int_of_digits_zeros, !int_of_digits_digits
    in Heq by done.
  lia.
Qed.

Lemma file_path_of_inj (a b : Z) :
  (0 ≤ a)%Z → (0 ≤ b)%Z → file_path_of a = file_path_of b → a = b.
Proof.
  intros Ha Hb Heq. unfold file_path_of in Heq.
  do 2 apply app_inv_head in Heq. apply app_inv_tail in Heq.
  apply format_012_inj in Heq; lia.
Qed.

Lemma file_path_of_ne_gz (a b : Z) :
  file_path_of a ≠ file_path_of b ++ lit ".gz".
Proof.
  intros Heq. apply (f_equal last) in Heq. unfold file_path_of in Heq.
  rewrite !app_assoc in Heq.
  rewrite (last_app _ (lit ".json")), (last_app _ (lit ".gz")) in Heq.
  discriminate.
Qed.

Lemma file_path_of_gz_inj (a b : Z) :
  (0 ≤ a)%Z → (0 ≤ b)%Z →
  file_path_of a ++ lit ".gz" = file_path_of b ++ lit ".gz" → a = b.
Proof.
  intros Ha Hb Heq. apply app_inv_tail in Heq. by apply file_path_of_inj.
Qed.

(** X17: two rounds of the loop never write to the same file: the
    paths of distinct file numbers differ, also once ".gz" is added,
    and no path is the compressed name of another. *)
Theorem file_paths_distinct (a b : Z) :
  (0 ≤ a)%Z → (0 ≤ b)%Z → a ≠ b →
  file_path_of a ≠ file_path_of b
  ∧ file_path_of a ++ lit ".gz" ≠ file_path_of b ++ lit ".gz"
  ∧ file_path_of a ≠ file_path_of b ++ lit ".gz"
  ∧ file_path_of a ≠ file_path_of a ++ lit ".gz".
Proof.
  intros Ha Hb Hab. split; [|split; [|split]].
  - intros Heq. by apply Hab, file_path_of_inj.
  - intros Heq. by apply Hab, file_path_of_gz_inj.
  - apply file_path_of_ne_gz.
  - apply file_path_of_ne_gz.
Qed.

Example file_path_of_first :
  file_path_of 0 = lit "codeparrot-clean/file-000000000001.json".
Proof. reflexivity. Qed.

(** ** Saving the shards *)

(** One round of the loop: the rows of the shard are written as JSON
    lines, the file is compressed, and the loop goes on if that
    returned. *)
Lemma save_loop_round (json_lines : list Example → bytes) (io : Z → fault)
    (ds_filter : list Example) (s k : nat) (rounds : list (Z * Z))
    (files : gmap str bytes) :
  0 < s → k * s < length ds_filter →
  save_loop json_lines io ds_filter (Z.of_nat s)
    ((Z.of_nat k, Z.of_nat (k * s)) :: rounds) files
  = match compress_file (io (Z.of_nat k)) (file_path_of (Z.of_nat k))
            (<[file_path_of (Z.of_nat k)
               := json_lines (take s (drop (k * s) ds_filter))]> files) with
    | (files', Return _) =>
        save_loop json_lines io ds_filter (Z.of_nat s) rounds files'
    | (files', Raise exc) => (files', Raise exc)
    end.
Proof.
  intros Hs Hk. cbn [save_loop]. unfold io_bind at 1, io_lift at 1.
  set (c := Nat.min s (length ds_filter - k * s)).
  replace (Z.min (len ds_filter) (Z.of_nat (k * s) + Z.of_nat s))
    with (Z.of_nat (k * s + c)) by (unfold len, c; lia).
  rewrite range_step_1. unfold io_bind at 1, io_lift at 1.
  rewrite Dataset_select_seq by (unfold c; lia).
  replace (take c (drop (k * s) ds_filter))
    with (take s (drop (k * s) ds_filter)).
  - unfold io_bind at 1, Dataset_to_json. unfold io_bind at 1. done.
  - unfold c. rewrite <- length_drop, <- take_take. by rewrite firstn_all.
Qed.

(** Rounds that do not fail, for distinct file numbers. *)
Lemma save_loop_ok (json_lines : list Example → bytes) (io : Z → fault)
    (ds_filter : list Example) (s : nat) (ks : list nat)
    (rounds : list (Z * Z)) (files : gmap str bytes) :
  0 < s → NoDup ks →
  (∀ k, k ∈ ks → k * s < length ds_filter ∧ io (Z.of_nat k) = no_fault) →
  ∃ files',
    save_loop json_lines io ds_filter (Z.of_nat s)
      (map (λ k, (Z.of_nat k, Z.of_nat (k * s))) ks ++ rounds) files
    = save_loop json_lines io ds_filter (Z.of_nat s) rounds files'
    ∧ (∀ k, k ∈ ks →
         files' !! (file_path_of (Z.of_nat k) ++ lit ".gz")
         = Some (gzip_compress
                   (json_lines (take s (drop (k * s) ds_filter))))
         ∧ files' !! file_path_of (Z.of_nat k) = None)
    ∧ (∀ path, (∀ k, k ∈ ks →
                     path ≠ file_path_of (Z.of_nat k)
                     ∧ path ≠ file_path_of (Z.of_nat k) ++ lit ".gz") →
               files' !! path = files !! path).
Proof.
  intros Hs Hnd. revert files.
  induction ks as [|k ks IH]; intros files Hks.
  { exists files. split; [done|]. split; [|done].
    intros k Hk. by apply elem_of_nil in Hk. }
  apply NoDup_cons in Hnd as [Hk Hnd].
  destruct (Hks k) as [Hlt Hio]; [by left|].
  cbn [map app]. rewrite save_loop_round by done. rewrite Hio.
  rewrite (compress_file_no_fault _ _
             (json_lines (take s (drop (k * s) ds_filter))))
    by apply lookup_insert_eq.
  destruct (IH Hnd (delete (file_path_of (Z.of_nat k))
             (<[file_path_of (Z.of_nat k) ++ lit ".gz"
                := gzip_compress
                     (json_lines (take s (drop (k * s) ds_filter)))]>
                (<[file_path_of (Z.of_nat k)
                   := json_lines (take s (drop (k * s) ds_filter))]>
                   files))))
    as (files' & Hrun & Hdone & Hother).
  { intros j Hj. apply Hks. by right. }
  exists files'. split; [exact Hrun|].
  assert (Hfresh : ∀ j, j ∈ ks → Z.of_nat k ≠ Z.of_nat j).
  { intros j Hj Heq. apply Hk. apply Nat2Z.inj in Heq. by subst j. }
  split.
  - intros j Hj. apply elem_of_cons in Hj as [->|Hj]; [|by apply Hdone].
    rewrite !Hother.
    + rewrite lookup_delete_ne by apply file_path_of_ne_gz.
      by rewrite lookup_insert_eq, lookup_delete_eq.
    + intros j Hj. split.
      * intros Heq. apply (Hfresh j Hj). apply file_path_of_inj; [lia|lia|done].
      * apply file_path_of_ne_gz.
    + intros j Hj. split.
      * intros Heq. symmetry in Heq. by apply file_path_of_ne_gz in Heq.
      * intros Heq. apply (Hfresh j Hj).
        apply file_path_of_gz_inj; [lia|lia|done].
  - intros path Hpath. rewrite Hother.
    + destruct (Hpath k) as [H1 H2]; [by left|].
      by rewrite lookup_delete_ne, !lookup_insert_ne.
    + intros j Hj. apply Hpath. by right.
Qed.

Lemma save_unfold (json_lines : list Example → bytes) (io : Z → fault)
    (ds_filter : list Example) (s : nat) (files : gmap str bytes) :
  0 < s →
  save json_lines io ds_filter (Z.of_nat s) files
  = save_loop json_lines io ds_filter (Z.of_nat s)
      (map (λ k, (Z.of_nat k, Z.of_nat (k * s)))
           (seq 0 (if decide (length ds_filter = 0) then 0
                   else S ((length ds_filter - 1) / s)))) files.
Proof.
  intros Hs. unfold save, io_bind, io_lift, len.
  rewrite range_starts by done. unfold enumerate.
  by rewrite length_map, length_seq, zip_map_map.
Qed.

(** X18: when nothing fails, the loop returns and leaves, for every
    shard, its JSON lines compressed under the name of its number with
    ".gz" and no uncompressed file of that number; every path that is
    not one of the two names of a shard written holds what it held
    before. *)
Theorem save_writes_every_shard (json_lines : list Example → bytes)
    (io : Z → fault) (ds_filter : list Example) (samples_per_file : Z)
    (files : gmap str bytes) :
  (0 < samples_per_file)%Z → (∀ k, io k = no_fault) →
  ∃ out files',
    shards ds_filter samples_per_file = Return out
    ∧ save json_lines io ds_filter samples_per_file files
      = (files', Return tt)
    ∧ (∀ i number rows,
         out !! i = Some (number, rows) →
         files' !! (file_path_of (Z.of_nat i) ++ lit ".gz")
         = Some (gzip_compress (json_lines rows))
         ∧ files' !! file_path_of (Z.of_nat i) = None)
    ∧ (∀ path, (∀ i number rows,
                  out !! i = Some (number, rows) →
                  path ≠ file_path_of (Z.of_nat i)
                  ∧ path ≠ file_path_of (Z.of_nat i) ++ lit ".gz") →
               files' !! path = files !! path).
Proof.
  intros Hpos Hio.
  set (s := Z.to_nat samples_per_file).
  assert (Hs : 0 < s) by (unfold s; lia).
  assert (Hspf : samples_per_file = Z.of_nat s) by (unfold s; lia).
  clearbody s. subst samples_per_file.
  rewrite (shards_eq ds_filter s Hs), save_unfold by done.
  set (m := if decide (length ds_filter = 0) then 0
            else S ((length ds_filter - 1) / s)).
  destruct (save_loop_ok json_lines io ds_filter s (seq 0 m) [] files Hs)
    as (files' & Hrun & Hdone & Hother).
  { apply NoDup_seq. }
  { intros k Hk. apply elem_of_seq in Hk. split; [|done].
    apply (shard_index_in_range _ s k Hs). fold m. lia. }
  rewrite app_nil_r in Hrun.
  eexists _, files'. split; [reflexivity|]. split; [exact Hrun|]. split.
  - intros i number rows Hi.
    apply list_lookup_fmap_Some in Hi as (k & [= -> ->] & Hk).
    apply lookup_seq in Hk as [-> Hk]. apply Hdone.
    apply elem_of_seq. lia.
  - intros path Hpath. apply Hother. intros k Hk.
    apply elem_of_seq in Hk.
    apply (Hpath k (Z.of_nat k + 1)%Z (take s (drop (k * s) ds_filter))).
    rewrite list_lookup_fmap.
    by rewrite (proj2 (lookup_seq 0 _ _ k)) by (split; [done|lia]).
Qed.

(** X19: when [compress_file] fails in the round of shard [k] and in
    no round before, the loop stops there with the exception: the
    shards before [k] are compressed as if nothing had failed, the
    uncompressed file of shard [k] is still there, and no file of a
    later shard has been touched. *)
Theorem save_stops_at_first_failure (json_lines : list Example → bytes)
    (io : Z → fault) (ds_filter : list Example) (samples_per_file : Z)
    (files : gmap str bytes) (out : list (Z * list Example))
    (k : nat) (number : Z) (rows : list Example) :
  (0 < samples_per_file)%Z →
  shards ds_filter samples_per_file = Return out →
  out !! k = Some (number, rows) →
  (∀ i, i < k → io (Z.of_nat i) = no_fault) →
  io (Z.of_nat k) ≠ no_fault →
  ∃ files' exc,
    save json_lines io ds_filter samples_per_file files
    = (files', Raise exc)
    ∧ (∀ i number' rows',
         i < k → out !! i = Some (number', rows') →
         files' !! (file_path_of (Z.of_nat i) ++ lit ".gz")
         = Some (gzip_compress (json_lines rows'))
         ∧ files' !! file_path_of (Z.of_nat i) = None)
    ∧ files' !! file_path_of (Z.of_nat k) = Some (json_lines rows)
    ∧ (∀ j, k < j →
         files' !! file_path_of (Z.of_nat j)
         = files !! file_path_of (Z.of_nat j)
         ∧ files' !! (file_path_of (Z.of_nat j) ++ lit ".gz")
           = files !! (file_path_of (Z.of_nat j) ++ lit ".gz")).
Proof.
  intros Hpos Hout Hk Hbefore Hfail.
  set (s := Z.to_nat samples_per_file).
  assert (Hs : 0 < s) by (unfold s; lia).
  assert (Hspf : samples_per_file = Z.of_nat s) by (unfold s; lia).
  clearbody s. subst samples_per_file.
  rewrite (shards_eq ds_filter s Hs) in Hout. injection Hout as Hout.
  rewrite save_unfold by done.
  set (m := if decide (length ds_filter = 0) then 0
            else S ((length ds_filter - 1) / s)) in *.
  rewrite <- Hout in Hk.
  apply list_lookup_fmap_Some in Hk as (k' & [= -> ->] & Hk).
  apply lookup_seq in Hk as [-> Hk]. simpl in Hk.
  assert (Hin : ∀ i, i < m → i * s < length ds_filter).
  { intros i Hi. apply (shard_index_in_range _ s i Hs). fold m. lia. }
  replace m with (k + S (m - S k)) by lia.
  rewrite seq_app, map_app. cbn [seq map]. rewrite Nat.add_0_l.
  destruct (save_loop_ok json_lines io ds_filter s (seq 0 k)
              ((Z.of_nat k, Z.of_nat (k * s))
               :: map (λ k0, (Z.of_nat k0, Z.of_nat (k0 * s)))
                      (seq (S k) (m - S k))) files Hs)
    as (files1 & Hrun & Hdone & Hother).
  { apply NoDup_seq. }
  { intros i Hi. apply elem_of_seq in Hi. split; [apply Hin|apply Hbefore]; lia. }
  rewrite Hrun, save_loop_round by (done || apply Hin; lia).
  destruct (compress_file_fault (io (Z.of_nat k))
              (file_path_of (Z.of_nat k))
              (<[file_path_of (Z.of_nat k)
                 := json_lines (take s (drop (k * s) ds_filter))]> files1)
              (json_lines (take s (drop (k * s) ds_filter))) Hfail)
    as (files' & exc & Hcompress & Hsrc & Hframe).
  { apply lookup_insert_eq. }
  rewrite Hcompress. exists files', exc. split; [done|].
  assert (Hne : ∀ i j : nat, i ≠ j →
    file_path_of (Z.of_nat i) ≠ file_path_of (Z.of_nat j)
    ∧ file_path_of (Z.of_nat i) ++ lit ".gz"
      ≠ file_path_of (Z.of_nat j) ++ lit ".gz").
  { intros i j Hij. split; intros Heq; apply Hij, Nat2Z.inj.
    - apply file_path_of_inj; [lia|lia|done].
    - apply file_path_of_gz_inj; [lia|lia|done]. }
  split; [|split; [done|]].
  - intros i number' rows' Hi Hlook. rewrite <- Hout in Hlook.
    apply list_lookup_fmap_Some in Hlook as (i' & [= -> ->] & Hi').
    apply lookup_seq in Hi' as [-> _]. simpl.
    destruct (Hdone i) as [Hgz Hjson]; [apply elem_of_seq; lia|].
    rewrite !Hframe.
    + rewrite !lookup_insert_ne; [done| |].
      * apply Hne. lia.
      * apply file_path_of_ne_gz.
    + apply file_path_of_ne_gz.
    + apply Hne. lia.
  - intros j Hj. rewrite !Hframe.
    + rewrite !lookup_insert_ne, !Hother; [done| | | |].
      * intros i Hi. apply elem_of_seq in Hi. split; [|apply Hne; lia].
        intros Heq. symmetry in Heq. by apply file_path_of_ne_gz in Heq.
      * intros i Hi. apply elem_of_seq in Hi.
        split; [apply Hne; lia|apply file_path_of_ne_gz].
      * apply file_path_of_ne_gz.
      * apply Hne. lia.
    + apply Hne. lia.
    + apply file_path_of_ne_gz.
Qed.

End Script.

(** ** The claims that fail on the code, at explicit inputs *)

(** C4 as stated fails: the empty string yields no line, and
    [line_stats] neither raises a [DataError] nor returns
    [line_max = 0]. *)
Lemma line_stats_empty_neither_DataError_nor_zero :
  splitlines [] = []
  ∧ ¬ (line_stats [] = Raise "DataError"
       ∨ ∃ mean, line_stats [] = Return (mean, 0%Z)).
Proof.
  split; [reflexivity|]. intros [Herr|[mean Hret]]; discriminate.
Qed.

(** C5 as stated fails: on the empty string [alpha_frac] is NaN, not a
    number of the interval from 0 to 1. *)
Lemma alpha_frac_empty_not_in_unit_interval :
  ¬ ∃ q, alpha_stats (λ _, false) [] = fin q ∧ (0 <= q)%Q ∧ (q <= 1)%Q.
Proof. intros (q & Hq & _). discriminate. Qed.

(** C9 as stated fails: when the copy fails with one byte of a
    four-byte compressed stream on the disk, the directory holds the
    source and a half-written target, which is neither the finished
    shard alone nor nothing. *)
Lemma compress_file_failure_leaves_partial_target :
  let gzip_compress := λ data : bytes, [31; 139]%N ++ data in
  let files : gmap str bytes := {[ lit "f.json" := [104; 105]%N ]} in
  let files' := (compress_file gzip_compress (fail_copy [31%N])
                   (lit "f.json") files).1 in
  (compress_file gzip_compress (fail_copy [31%N]) (lit "f.json") files).2
  = Raise "OSError"
  ∧ files' !! lit "f.json" = Some [104; 105]%N
  ∧ files' !! lit "f.json.gz" = Some [31%N]
  ∧ ¬ ((files' !! lit "f.json.gz" = Some (gzip_compress [104; 105]%N)
        ∧ files' !! lit "f.json" = None)
       ∨ files' !! lit "f.json.gz" = None).
Proof.
  intros gzip_compress files files'.
  assert (Hsrc : files' !! lit "f.json" = Some [104; 105]%N)
    by (vm_compute; reflexivity).
  assert (Hgz : files' !! lit "f.json.gz" = Some [31%N])
    by (vm_compute; reflexivity).
  split; [vm_compute; reflexivity|]. split; [exact Hsrc|].
  split; [exact Hgz|].
  rewrite Hsrc, Hgz. intros [[_ Hnone]|Hnone]; discriminate.
Qed.

(** ** The theorems at concrete inputs *)

Lemma check_uniques_consumes_once_witness :
  let e := {| content := lit "x";
              attrs := {| hash := 1; line_mean := fin 1; line_max := 1;
                          alpha_frac := fin 1; autogenerated := false |} |} in
  (1%Z ∈ ({[1%Z]} : gset Z))
  ∧ check_uniques e {[1%Z]} = Return (true, {[1%Z]} ∖ {[1%Z]})
  ∧ ∃ mask uniques',
      filter_mask check_uniques [e; e; e] {[1%Z]} = Return (mask, uniques')
      ∧ count_occ Bool.bool_dec mask true = 1.
Proof.
  intros e.
  assert (Hin : 1%Z ∈ ({[1%Z]} : gset Z))
    by (apply elem_of_singleton; reflexivity).
  destruct (check_uniques_consumes_once (λ s, len s) {[1%Z]} 1%Z Hin)
    as (Hfirst & _ & Hcount).
  split; [exact Hin|]. split; [apply Hfirst; reflexivity|].
  apply (Hcount (lit "x") [e; e; e] [e; e; e]);
    [reflexivity | discriminate | repeat constructor | reflexivity].
Defined.

Lemma line_stats_no_line_ValueError_witness :
  splitlines [] = []
  ∧ ([] = ([] : str) ∧ line_stats [] = Raise "ValueError").
Proof.
  split; [reflexivity|]. apply line_stats_no_line_ValueError. reflexivity.
Defined.

Lemma alpha_frac_bounds_witness :
  lit "a-1" ≠ []
  ∧ ∃ q, alpha_stats (λ _, false) (lit "a-1") = fin q
         ∧ (0 <= q)%Q ∧ (q <= 1)%Q.
Proof.
  split; [discriminate|].
  apply (proj1 (alpha_frac_bounds (λ _, false) (lit "a-1"))). discriminate.
Defined.

Lemma line_mean_le_line_max_witness :
  lit "ab" ≠ []
  ∧ ∃ mean m, line_stats (lit "ab") = Return (fin mean, m)
              ∧ (mean <= inject_Z m)%Q.
Proof.
  split; [discriminate|]. apply line_mean_le_line_max. discriminate.
Defined.

Lemma shards_concat_witness :
  (0 < 2)%Z
  ∧ ∃ out,
      shards [10; 20; 30; 40; 50]%Z 2 = Return out
      ∧ concat (map snd out) = [10; 20; 30; 40; 50]%Z
      ∧ map fst out = map (λ k, (Z.of_nat k + 1)%Z) (seq 0 (length out)).
Proof. split; [reflexivity|]. apply shards_concat. reflexivity. Defined.

Lemma shards_sizes_witness :
  (0 < 2)%Z
  ∧ ∃ out,
      shards [10; 20; 30; 40; 50]%Z 2 = Return out
      ∧ (∀ i number rows,
           out !! i = Some (number, rows) → i + 1 < length out →
           len rows = 2%Z)
      ∧ (∀ number rows,
           last out = Some (number, rows) →
           len rows
           = if (len [10; 20; 30; 40; 50]%Z mod 2 =? 0)%Z
             then 2%Z
             else (len [10; 20; 30; 40; 50]%Z mod 2)%Z)
      ∧ ([10; 20; 30; 40; 50]%Z ≠ [] →
         ∃ number rows, last out = Some (number, rows)).
Proof. split; [reflexivity|]. apply shards_sizes. reflexivity. Defined.

Lemma compress_file_keeps_source_on_failure_witness :
  let gzip_compress := λ data : bytes, [31; 139]%N ++ data in
  let files : gmap str bytes := {[ lit "f.json" := [104; 105]%N ]} in
  let files' : gmap str bytes :=
    <[lit "f.json.gz" := [31%N]]> (<[lit "f.json.gz" := []]> files) in
  compress_file gzip_compress (fail_copy [31%N]) (lit "f.json") files
  = (files', Raise "OSError")
  ∧ files' !! lit "f.json" = files !! lit "f.json".
Proof.
  intros gzip_compress files files'.
  assert (Hrun : compress_file gzip_compress (fail_copy [31%N])
                   (lit "f.json") files
                 = (files', Raise "OSError")) by reflexivity.
  split; [exact Hrun|].
  destruct (compress_file_keeps_source_on_failure gzip_compress _ _ _ _ _ Hrun)
    as [Hkeep _].
  apply (Hkeep "OSError"). reflexivity.
Defined.

Lemma same_hash_first_wins_witness :
  let e1 := {| content := lit "AUTO-GENERATED";
               attrs := {| hash := 7; line_mean := fin 14; line_max := 14;
                           alpha_frac := fin (13 # 14);
                           autogenerated := true |} |} in
  let e2 := {| content := lit "x = 1";
               attrs := {| hash := 7; line_mean := fin 5; line_max := 5;
                           alpha_frac := fin (2 # 5);
                           autogenerated := false |} |} in
  0 < 1
  ∧ ∃ mask uniques',
      filter_mask filter [e1; e2] {[7%Z]} = Return (mask, uniques')
      ∧ mask !! 1 = Some false.
Proof.
  intros e1 e2. split; [lia|].
  destruct (same_hash_first_wins [e1; e2] {[7%Z]})
    as (mask & uniques' & Hrun & _ & Hlater & _).
  exists mask, uniques'. split; [exact Hrun|].
  apply (Hlater 0 1 e1 e2); [lia | reflexivity | reflexivity | reflexivity].
Defined.

Lemma preprocess_outcome_witness :
  lit "ab" ≠ []
  ∧ ∃ a, preprocess (λ s, len s) (λ _, false) (λ s, s) (lit "ab") = Return a.
Proof.
  split; [discriminate|].
  destruct (proj2 (preprocess_outcome (λ s, len s) (λ _, false) (λ s, s)
                     (lit "ab")))
    as (mean & m & q & Heq & _); [discriminate|].
  eexists. exact Heq.
Defined.

Lemma trailing_newline_invariant_witness :
  last (lit "ab") = Some 98%N ∧ is_linebreak 98 = false
  ∧ line_stats (lit "ab" ++ [10%N]) = line_stats (lit "ab").
Proof.
  split; [reflexivity|]. split; [reflexivity|].
  apply (trailing_newline_invariant (λ s, s) (lit "ab") 98%N);
    reflexivity.
Defined.

Lemma is_autogenerated_iff_witness :
  is_autogenerated (λ s, s) (lit "x Autogenerated") = true.
Proof.
  apply is_autogenerated_iff.
  exists 0, (lit "x Autogenerated"), (lit "autogenerated"), (lit "x "), [].
  split; [lia|]. split; [reflexivity|]. split; [|reflexivity].
  apply list_elem_of_In. right. left. reflexivity.
Defined.

Lemma is_autogenerated_ignores_later_lines_witness :
  let content := lit "a" ++ [10%N] ++ lit "b" ++ [10%N] ++ lit "c"
                 ++ [10%N] ++ lit "d" ++ [10%N] ++ lit "e" in
  5 ≤ length (splitlines (content ++ [10%N]))
  ∧ is_autogenerated (λ s, s) (content ++ 10%N :: lit "autogenerated")
    = is_autogenerated (λ s, s) (content ++ [10%N]).
Proof.
  intros content.
  assert (Hfive : 5 ≤ length (splitlines (content ++ [10%N])))
    by (vm_compute; lia).
  split; [exact Hfive|].
  exact (is_autogenerated_ignores_later_lines (λ s, s) content
           (lit "autogenerated") Hfive).
Defined.

Lemma is_autogenerated_case_insensitive_witness :
  is_ascii (lit "AutoGenerated") = true
  ∧ is_ascii (lit "AUTOGENERATED") = true
  ∧ is_autogenerated (λ s, s) (lit "AutoGenerated")
    = is_autogenerated (λ s, s) (lit "AUTOGENERATED").
Proof.
  split; [reflexivity|]. split; [reflexivity|].
  apply is_autogenerated_case_insensitive; reflexivity.
Defined.

Lemma filter_accepts_iff_witness :
  let e := {| content := lit "x = 1";
              attrs := {| hash := 7; line_mean := fin 5; line_max := 5;
                          alpha_frac := fin (2 # 5);
                          autogenerated := false |} |} in
  (7%Z ∈ ({[7%Z]} : gset Z))
  ∧ ∃ uniques', filter e {[7%Z]} = Return (true, uniques').
Proof.
  intros e.
  assert (Hin : 7%Z ∈ ({[7%Z]} : gset Z))
    by (apply elem_of_singleton; reflexivity).
  split; [exact Hin|].
  apply filter_accepts_iff. split; [exact Hin|].
  unfold passes_heuristics. simpl.
  split; [reflexivity|]. split; [lia|]. split; discriminate.
Defined.

Lemma pipeline_outcome_witness :
  (pipeline (λ s, len s) (λ _, false) (λ s, s) [] = Raise "ValueError")
  ∧ ([] ∈ [lit "ab"; []])
  ∧ (pipeline (λ s, len s) (λ _, false) (λ s, s) [lit "ab"; []]
     = Raise "ValueError")
  ∧ ([lit "ab"] ≠ []) ∧ ([] ∉ [lit "ab"])
  ∧ ∃ run, pipeline (λ s, len s) (λ _, false) (λ s, s) [lit "ab"]
           = Return run.
Proof.
  assert (Hin : [] ∈ [lit "ab"; []])
    by (apply list_elem_of_In; right; left; reflexivity).
  assert (Hne : [lit "ab"] ≠ []) by discriminate.
  assert (Hnotin : [] ∉ [lit "ab"]).
  { intros H. apply list_elem_of_In in H. destruct H as [H|[]].
    discriminate. }
  split.
  { exact (proj1 (pipeline_outcome (λ s, len s) (λ _, false) (λ s, s) [])
             eq_refl). }
  split; [exact Hin|]. split.
  { exact (proj1 (proj2 (pipeline_outcome (λ s, len s) (λ _, false)
                           (λ s, s) [lit "ab"; []])) Hin). }
  split; [exact Hne|]. split; [exact Hnotin|].
  exact (proj2 (proj2 (pipeline_outcome (λ s, len s) (λ _, false)
                         (λ s, s) [lit "ab"])) Hne Hnotin).
Defined.

Lemma pipeline_rows_witness :
  ∃ run,
    pipeline (λ s, len s) (λ _, false) (λ s, s) [lit "ab"; lit "ab"]
    = Return run
    ∧ map content (ds run) = [lit "ab"; lit "ab"]
    ∧ map hash (data_hash run) = [2; 2]%Z.
Proof.
  assert (Hex : ∃ run,
    pipeline (λ s, len s) (λ _, false) (λ s, s) [lit "ab"; lit "ab"]
    = Return run) by (eexists; vm_compute; reflexivity).
  destruct Hex as [run Hrun]. exists run. split; [exact Hrun|].
  destruct (pipeline_rows _ _ _ _ _ Hrun) as (Hc & _ & Hh & _).
  split; [exact Hc|exact Hh].
Defined.

Lemma pipeline_uniques_witness :
  ∃ run,
    pipeline (λ s, len s) (λ _, false) (λ s, s) [lit "ab"; lit "ab"]
    = Return run
    ∧ uniques1 run = ∅.
Proof.
  assert (Hex : ∃ run,
    pipeline (λ s, len s) (λ _, false) (λ s, s) [lit "ab"; lit "ab"]
    = Return run) by (eexists; vm_compute; reflexivity).
  destruct Hex as [run Hrun]. exists run. split; [exact Hrun|].
  exact (proj2 (pipeline_uniques _ _ _ _ _ Hrun)).
Defined.


Lemma pipeline_survivors_witness :
  ∃ run,
    pipeline (λ s, len s) (λ _, false) (λ s, s) [lit "ab"; lit "ab"]
    = Return run
    ∧ NoDup (map content (ds_filter run)).
Proof.
  assert (Hex : ∃ run,
    pipeline (λ s, len s) (λ _, false) (λ s, s) [lit "ab"; lit "ab"]
    = Return run) by (eexists; vm_compute; reflexivity).
  destruct Hex as [run Hrun]. exists run. split; [exact Hrun|].
  destruct (pipeline_survivors _ _ _ _ _ Hrun) as (_ & _ & Hnd & _).
  exact Hnd.
Defined.

Lemma shards_without_positive_size_witness :
  (-1 < 0)%Z ∧ shards [10; 20; 30]%Z (-1) = Return [].
Proof.
  split; [reflexivity|].
  apply (shards_without_positive_size [10; 20; 30]%Z (-1)). reflexivity.
Defined.

Lemma shards_count_witness :
  (0 < 2)%Z
  ∧ ∃ out, shards [10; 20; 30; 40; 50]%Z 2 = Return out ∧ len out = 3%Z.
Proof.
  split; [reflexivity|].
  destruct (shards_count [10; 20; 30; 40; 50]%Z 2 eq_refl)
    as (out & Hout & Hlen & _).
  exists out. split; [exact Hout|exact Hlen].
Defined.

Lemma shards_row_position_witness :
  (0 < 2)%Z
  ∧ ∃ out rows,
      shards [10; 20; 30; 40; 50]%Z 2 = Return out
      ∧ out !! 1 = Some (2%Z, rows) ∧ rows !! 1 = Some 40%Z.
Proof.
  split; [reflexivity|].
  destruct (shards_row_position [10; 20; 30; 40; 50]%Z 2 eq_refl)
    as (out & Hout & Hpos).
  destruct (Hpos 3 40%Z eq_refl) as (rows & Hrows & Hx).
  exists out, rows. split; [exact Hout|]. split; [exact Hrows|exact Hx].
Defined.

Lemma compress_file_outcome_witness :
  (∅ : gmap str bytes) !! lit "f.json" = None
  ∧ compress_file (λ data, [31; 139]%N ++ data) no_fault (lit "f.json") ∅
    = (∅, Raise "FileNotFoundError").
Proof.
  split; [reflexivity|].
  apply (compress_file_outcome (λ data, [31; 139]%N ++ data)). reflexivity.
Defined.


Lemma file_paths_distinct_witness :
  (0 ≤ 0)%Z ∧ (0 ≤ 1)%Z ∧ (0 ≠ 1)%Z ∧ file_path_of 0 ≠ file_path_of 1.
Proof.
  assert (H0 : (0 ≤ 0)%Z) by discriminate.
  assert (H1 : (0 ≤ 1)%Z) by discriminate.
  assert (Hne : (0 ≠ 1)%Z) by discriminate.
  split; [exact H0|]. split; [exact H1|]. split; [exact Hne|].
  exact (proj1 (file_paths_distinct 0 1 H0 H1 Hne)).
Defined.

Lemma save_writes_every_shard_witness :
  let e := {| content := lit "x = 1";
              attrs := {| hash := 7; line_mean := fin 5; line_max := 5;
                          alpha_frac := fin (2 # 5);
                          autogenerated := false |} |} in
  let stale := file_path_of 2 ++ lit ".gz" in
  let files : gmap str bytes := {[ stale := [9%N] ]} in
  (0 < 2)%Z
  ∧ ∃ files',
      save (λ data, [31; 139]%N ++ data) (λ rows, map (λ _, 123%N) rows)
           (λ _, no_fault) [e; e; e] 2 files
      = (files', Return tt)
      ∧ files' !! (file_path_of 1 ++ lit ".gz") = Some [31; 139; 123]%N
      ∧ files' !! stale = Some [9%N].
Proof.
  intros e stale files. split; [reflexivity|].
  destruct (save_writes_every_shard (λ data, [31; 139]%N ++ data)
              (λ rows, map (λ _, 123%N) rows) (λ _, no_fault)
              [e; e; e] 2 files eq_refl (λ _, eq_refl))
    as (out & files' & Hout & Hsave & Hdone & Hother).
  assert (Hshards : shards [e; e; e] 2 = Return [(1%Z, [e; e]); (2%Z, [e])])
    by reflexivity.
  rewrite Hshards in Hout. injection Hout as <-.
  exists files'. split; [exact Hsave|]. split.
  - exact (proj1 (Hdone 1 2%Z [e] eq_refl)).
  - rewrite (Hother stale); [reflexivity|].
    intros i number rows Hi.
    assert (Hgz : ∀ k : Z, (0 ≤ k)%Z → k ≠ 2%Z →
              stale ≠ file_path_of k ∧ stale ≠ file_path_of k ++ lit ".gz").
    { intros k Hk Hne. split.
      - intros Heq. symmetry in Heq. exact (file_path_of_ne_gz k 2 Heq).
      - intros Heq. apply Hne. symmetry.
        apply (file_path_of_gz_inj 2 k); [discriminate|exact Hk|exact Heq]. }
    destruct i as [|[|i]]; [| |discriminate].
    + apply (Hgz 0%Z); discriminate.
    + apply (Hgz 1%Z); discriminate.
Defined.

Lemma save_stops_at_first_failure_witness :
  let e := {| content := lit "x = 1";
              attrs := {| hash := 7; line_mean := fin 5; line_max := 5;
                          alpha_frac := fin (2 # 5);
                          autogenerated := false |} |} in
  let io := λ k : Z, if (k =? 1)%Z then fail_unlink else no_fault in
  (0 < 2)%Z
  ∧ shards [e; e; e] 2 = Return [(1%Z, [e; e]); (2%Z, [e])]
  ∧ io 1%Z ≠ no_fault
  ∧ ∃ files' exc,
      save (λ data, [31; 139]%N ++ data) (λ rows, map (λ _, 123%N) rows)
           io [e; e; e] 2 ∅
      = (files', Raise exc)
      ∧ files' !! file_path_of 1 = Some [123%N].
Proof.
  intros e io.
  assert (Hout : shards [e; e; e] 2 = Return [(1%Z, [e; e]); (2%Z, [e])])
    by reflexivity.
  assert (Hio : io 1%Z ≠ no_fault) by discriminate.
  split; [reflexivity|]. split; [exact Hout|]. split; [exact Hio|].
  destruct (save_stops_at_first_failure (λ data, [31; 139]%N ++ data)
              (λ rows, map (λ _, 123%N) rows) io [e; e; e] 2 ∅
              [(1%Z, [e; e]); (2%Z, [e])] 1 2%Z [e] eq_refl Hout eq_refl)
    as (files' & exc & Hsave & _ & Hsrc & _).
  { intros i Hi. assert (i = 0) as -> by lia. reflexivity. }
  { exact Hio. }
  exists files', exc. split; [exact Hsave|exact Hsrc].
Defined.

End preprocessing.
